(** * TypeAndHaveFun: the typing-session engine of [typing-practice.tsx]

    A shallow embedding of the React component [TypingPractice]: every
    [useState] cell becomes a field of the record [State], every handler a
    function from the state of the render it closes over to the state after
    the batched setters.  A handler reads the values of its render and its
    setters are applied in order to a pending state, so each handler below
    takes the rendered state [s] (read-only) and threads a pending state
    [st] (write-only), the last setter of a cell winning.

    Numbers.  Cursor indices and lengths are [nat]; counters of the stats
    record are [Z]; elapsed time and the quotients fed to [Math.round] are
    exact rationals [Q] (the source computes them in binary floating point;
    every quotient evaluated on a concrete input below is far from a
    rounding boundary); a words-per-minute figure is a [jsnum], an integer
    or [Infinity] (a division by a zero elapsed time). *)

From Stdlib Require Import ZArith QArith Qround String Ascii List Lia.
From stdpp Require Import base list strings gmap.
Local Close Scope Q_scope.
Local Open Scope nat_scope.
Import ListNotations.

(** ** JavaScript numbers and arrays *)

(** [Math.round]: the nearest integer, halves rounded up. *)
Definition Math_round (q : Q) : Z := Qfloor (q + (1 # 2))%Q.

(** The value of [Math.round(x / y) || 0] and of the numbers stored from it:
    an integer, or [Infinity]. *)
Inductive jsnum : Type :=
  | Fin (z : Z)
  | Infinity.

Definition jsnum_ltb (a b : jsnum) : bool :=
  match a, b with
  | Fin x, Fin y => (x <? y)%Z
  | Fin _, Infinity => true
  | Infinity, _ => false
  end.

Definition Math_max (a b : jsnum) : jsnum :=
  if jsnum_ltb a b then b else a.

(** [a[i] = v] on a copy of the array [a].  Inside the array it overwrites
    the entry; at or past the end JavaScript grows the array, the skipped
    entries being holes.  A hole reads as [undefined], which every reader of
    the bitmap ([filter(Boolean)], [correctChars[offset] && ...]) treats as
    [false], so holes are stored as [false]. *)
Definition array_set (a : list bool) (i : nat) (v : bool) : list bool :=
  if i <? length a then <[i := v]> a
  else a ++ replicate (i - length a) false ++ [v].

(** [value[value.length - 1]], and [w[i]]: [undefined] is [None]. *)
Definition char_at (i : nat) (w : string) : option ascii := String.get i w.

Definition last_char (value : string) : option ascii :=
  if String.length value =? 0 then None
  else char_at (String.length value - 1) value.

(** [words.join(" ")]. *)
Fixpoint join_space (ws : list string) : string :=
  match ws with
  | [] => EmptyString
  | [w] => w
  | w :: rest => String.append w (String " "%char (join_space rest))
  end.

(** Truthiness of a string ([!currentWord], [!userName]) and of a
    [string | null] ([if (activeChallengeId)]). *)
Definition truthy (w : string) : bool := negb (String.eqb w EmptyString).

Definition truthy_id (o : option string) : bool :=
  match o with
  | Some i => truthy i
  | None => false
  end.

(** ** The data model *)

Inductive TypingMode : Type := time | wordsMode.
Inductive TypingDifficulty : Type := easy | medium | hard | numbers | mixed.
Inductive AccuracyMode : Type := strict | relaxed.

Definition TypingMode_eqb (a b : TypingMode) : bool :=
  match a, b with
  | time, time | wordsMode, wordsMode => true
  | _, _ => false
  end.

Definition AccuracyMode_eqb (a b : AccuracyMode) : bool :=
  match a, b with
  | strict, strict | relaxed, relaxed => true
  | _, _ => false
  end.

Record TypingStats : Type := mkStats {
  wpm : jsnum;
  accuracy : Z;
  statCorrectChars : Z;
  incorrectChars : Z;
  totalChars : Z;
  completedTests : Z
}.

Record TypingSettings : Type := mkSettings {
  mode : TypingMode;
  difficulty : TypingDifficulty;
  timeLimit : Z;
  wordCount : nat;
  soundEnabled : bool;
  accuracyMode : AccuracyMode
}.

Record Participant : Type := mkParticipant {
  name : string;
  pWpm : jsnum;
  pAccuracy : Z
}.

Record Challenge : Type := mkChallenge {
  cId : string;
  cCreatorName : string;
  cDifficulty : TypingDifficulty;
  cMode : TypingMode;
  cLimit : Z;
  expiresAt : Z;
  bestWpm : jsnum;
  bestAccuracy : Z;
  participants : list Participant
}.

Record RoomParticipant : Type := mkRoomParticipant {
  rpId : string;
  rpName : string;
  progress : Z;
  rpWpm : jsnum;
  rpAccuracy : Z;
  isActive : bool
}.

Record Room : Type := mkRoom {
  rId : string;
  rName : string;
  rCreatorName : string;
  rDifficulty : TypingDifficulty;
  rMode : TypingMode;
  rLimit : Z;
  rParticipants : list RoomParticipant
}.

Definition DEFAULT_SETTINGS : TypingSettings :=
  mkSettings time medium 30 25 true relaxed.

Definition DEFAULT_STATS : TypingStats :=
  mkStats (Fin 0) 0 0 0 0 0.

(** The cells of the component, one field per [useState] (and
    [useLocalStorage]) hook that the session engine reads or writes. *)
Record State : Type := mkState {
  words : list string;
  currentInput : string;
  currentWordIndex : nat;
  currentCharIndex : nat;
  correctChars : list bool;
  startTime : Z;
  timeElapsed : Q;
  testActive : bool;
  testComplete : bool;
  currentWpm : Z;
  currentAccuracy : Z;
  errorPosition : option nat;
  settings : TypingSettings;
  stats : TypingStats;
  userName : string;
  challenges : list Challenge;
  activeChallengeId : option string;
  rooms : list Room;
  activeRoomId : option string;
  showNamePrompt : bool
}.

Definition setWords (v : list string) (s : State) : State :=
  mkState v (currentInput s) (currentWordIndex s) (currentCharIndex s)
    (correctChars s) (startTime s) (timeElapsed s) (testActive s)
    (testComplete s) (currentWpm s) (currentAccuracy s) (errorPosition s)
    (settings s) (stats s) (userName s) (challenges s) (activeChallengeId s)
    (rooms s) (activeRoomId s) (showNamePrompt s).

Definition setCurrentInput (v : string) (s : State) : State :=
  mkState (words s) v (currentWordIndex s) (currentCharIndex s)
    (correctChars s) (startTime s) (timeElapsed s) (testActive s)
    (testComplete s) (currentWpm s) (currentAccuracy s) (errorPosition s)
    (settings s) (stats s) (userName s) (challenges s) (activeChallengeId s)
    (rooms s) (activeRoomId s) (showNamePrompt s).

Definition setCurrentWordIndex (v : nat) (s : State) : State :=
  mkState (words s) (currentInput s) v (currentCharIndex s) (correctChars s)
    (startTime s) (timeElapsed s) (testActive s) (testComplete s)
    (currentWpm s) (currentAccuracy s) (errorPosition s) (settings s)
    (stats s) (userName s) (challenges s) (activeChallengeId s) (rooms s)
    (activeRoomId s) (showNamePrompt s).

Definition setCurrentCharIndex (v : nat) (s : State) : State :=
  mkState (words s) (currentInput s) (currentWordIndex s) v (correctChars s)
    (startTime s) (timeElapsed s) (testActive s) (testComplete s)
    (currentWpm s) (currentAccuracy s) (errorPosition s) (settings s)
    (stats s) (userName s) (challenges s) (activeChallengeId s) (rooms s)
    (activeRoomId s) (showNamePrompt s).

Definition setCorrectChars (v : list bool) (s : State) : State :=
  mkState (words s) (currentInput s) (currentWordIndex s) (currentCharIndex s)
    v (startTime s) (timeElapsed s) (testActive s) (testComplete s)
    (currentWpm s) (currentAccuracy s) (errorPosition s) (settings s)
    (stats s) (userName s) (challenges s) (activeChallengeId s) (rooms s)
    (activeRoomId s) (showNamePrompt s).

Definition setStartTime (v : Z) (s : State) : State :=
  mkState (words s) (currentInput s) (currentWordIndex s) (currentCharIndex s)
    (correctChars s) v (timeElapsed s) (testActive s) (testComplete s)
    (currentWpm s) (currentAccuracy s) (errorPosition s) (settings s)
    (stats s) (userName s) (challenges s) (activeChallengeId s) (rooms s)
    (activeRoomId s) (showNamePrompt s).

Definition setTimeElapsed (v : Q) (s : State) : State :=
  mkState (words s) (currentInput s) (currentWordIndex s) (currentCharIndex s)
    (correctChars s) (startTime s) v (testActive s) (testComplete s)
    (currentWpm s) (currentAccuracy s) (errorPosition s) (settings s)
    (stats s) (userName s) (challenges s) (activeChallengeId s) (rooms s)
    (activeRoomId s) (showNamePrompt s).

Definition setTestActive (v : bool) (s : State) : State :=
  mkState (words s) (currentInput s) (currentWordIndex s) (currentCharIndex s)
    (correctChars s) (startTime s) (timeElapsed s) v (testComplete s)
    (currentWpm s) (currentAccuracy s) (errorPosition s) (settings s)
    (stats s) (userName s) (challenges s) (activeChallengeId s) (rooms s)
    (activeRoomId s) (showNamePrompt s).

Definition setTestComplete (v : bool) (s : State) : State :=
  mkState (words s) (currentInput s) (currentWordIndex s) (currentCharIndex s)
    (correctChars s) (startTime s) (timeElapsed s) (testActive s) v
    (currentWpm s) (currentAccuracy s) (errorPosition s) (settings s)
    (stats s) (userName s) (challenges s) (activeChallengeId s) (rooms s)
    (activeRoomId s) (showNamePrompt s).

Definition setCurrentWpm (v : Z) (s : State) : State :=
  mkState (words s) (currentInput s) (currentWordIndex s) (currentCharIndex s)
    (correctChars s) (startTime s) (timeElapsed s) (testActive s)
    (testComplete s) v (currentAccuracy s) (errorPosition s) (settings s)
    (stats s) (userName s) (challenges s) (activeChallengeId s) (rooms s)
    (activeRoomId s) (showNamePrompt s).

Definition setCurrentAccuracy (v : Z) (s : State) : State :=
  mkState (words s) (currentInput s) (currentWordIndex s) (currentCharIndex s)
    (correctChars s) (startTime s) (timeElapsed s) (testActive s)
    (testComplete s) (currentWpm s) v (errorPosition s) (settings s) (stats s)
    (userName s) (challenges s) (activeChallengeId s) (rooms s)
    (activeRoomId s) (showNamePrompt s).

Definition setErrorPosition (v : option nat) (s : State) : State :=
  mkState (words s) (currentInput s) (currentWordIndex s) (currentCharIndex s)
    (correctChars s) (startTime s) (timeElapsed s) (testActive s)
    (testComplete s) (currentWpm s) (currentAccuracy s) v (settings s)
    (stats s) (userName s) (challenges s) (activeChallengeId s) (rooms s)
    (activeRoomId s) (showNamePrompt s).

Definition setSettings (v : TypingSettings) (s : State) : State :=
  mkState (words s) (currentInput s) (currentWordIndex s) (currentCharIndex s)
    (correctChars s) (startTime s) (timeElapsed s) (testActive s)
    (testComplete s) (currentWpm s) (currentAccuracy s) (errorPosition s) v
    (stats s) (userName s) (challenges s) (activeChallengeId s) (rooms s)
    (activeRoomId s) (showNamePrompt s).

Definition setStats (v : TypingStats) (s : State) : State :=
  mkState (words s) (currentInput s) (currentWordIndex s) (currentCharIndex s)
    (correctChars s) (startTime s) (timeElapsed s) (testActive s)
    (testComplete s) (currentWpm s) (currentAccuracy s) (errorPosition s)
    (settings s) v (userName s) (challenges s) (activeChallengeId s) (rooms s)
    (activeRoomId s) (showNamePrompt s).

Definition setUserName (v : string) (s : State) : State :=
  mkState (words s) (currentInput s) (currentWordIndex s) (currentCharIndex s)
    (correctChars s) (startTime s) (timeElapsed s) (testActive s)
    (testComplete s) (currentWpm s) (currentAccuracy s) (errorPosition s)
    (settings s) (stats s) v (challenges s) (activeChallengeId s) (rooms s)
    (activeRoomId s) (showNamePrompt s).

Definition setChallenges (v : list Challenge) (s : State) : State :=
  mkState (words s) (currentInput s) (currentWordIndex s) (currentCharIndex s)
    (correctChars s) (startTime s) (timeElapsed s) (testActive s)
    (testComplete s) (currentWpm s) (currentAccuracy s) (errorPosition s)
    (settings s) (stats s) (userName s) v (activeChallengeId s) (rooms s)
    (activeRoomId s) (showNamePrompt s).

Definition setActiveChallengeId (v : option string) (s : State) : State :=
  mkState (words s) (currentInput s) (currentWordIndex s) (currentCharIndex s)
    (correctChars s) (startTime s) (timeElapsed s) (testActive s)
    (testComplete s) (currentWpm s) (currentAccuracy s) (errorPosition s)
    (settings s) (stats s) (userName s) (challenges s) v (rooms s)
    (activeRoomId s) (showNamePrompt s).

Definition setRooms (v : list Room) (s : State) : State :=
  mkState (words s) (currentInput s) (currentWordIndex s) (currentCharIndex s)
    (correctChars s) (startTime s) (timeElapsed s) (testActive s)
    (testComplete s) (currentWpm s) (currentAccuracy s) (errorPosition s)
    (settings s) (stats s) (userName s) (challenges s) (activeChallengeId s) v
    (activeRoomId s) (showNamePrompt s).

Definition setActiveRoomId (v : option string) (s : State) : State :=
  mkState (words s) (currentInput s) (currentWordIndex s) (currentCharIndex s)
    (correctChars s) (startTime s) (timeElapsed s) (testActive s)
    (testComplete s) (currentWpm s) (currentAccuracy s) (errorPosition s)
    (settings s) (stats s) (userName s) (challenges s) (activeChallengeId s)
    (rooms s) v (showNamePrompt s).

Definition setShowNamePrompt (v : bool) (s : State) : State :=
  mkState (words s) (currentInput s) (currentWordIndex s) (currentCharIndex s)
    (correctChars s) (startTime s) (timeElapsed s) (testActive s)
    (testComplete s) (currentWpm s) (currentAccuracy s) (errorPosition s)
    (settings s) (stats s) (userName s) (challenges s) (activeChallengeId s)
    (rooms s) (activeRoomId s) v.
(** ** The character offset index *)

(** The body of the [for] loop of [charOffsets], over the words it visits. *)
Fixpoint charOffsets_loop (visited : list string) (totalOffset : nat)
    (offsets : list nat) : list nat :=
  match visited with
  | [] => offsets
  | w :: rest =>
      let totalOffset := totalOffset + (String.length w + 1) in
      charOffsets_loop rest totalOffset (offsets ++ [totalOffset])
  end.

(** [charOffsets]: [offsets = [0]], then one push for each
    [i < words.length - 1]. *)
Definition charOffsets (ws : list string) : list nat :=
  charOffsets_loop (take (length ws - 1) ws) 0 [0].

(** ** Starting a session *)

(** [resetTest].  The new words come from [generateWords], which shuffles a
    corpus that is not part of the component; they are an argument here. *)
Definition resetTest (newWords : list string) (st : State) : State :=
  let st := setWords newWords st in
  let st := setCurrentInput EmptyString st in
  let st := setCurrentWordIndex 0 st in
  let st := setCurrentCharIndex 0 st in
  let st := setErrorPosition None st in
  let totalChars := String.length (join_space newWords) in
  let st := setCorrectChars (replicate totalChars false) st in
  let st := setStartTime 0 st in
  let st := setTimeElapsed 0%Q st in
  let st := setTestActive false st in
  let st := setTestComplete false st in
  let st := setCurrentWpm 0 st in
  setCurrentAccuracy 100 st.

(** The state of a freshly mounted component, before the first reset. *)
Definition mount (cfg : TypingSettings) : State :=
  mkState [] EmptyString 0 0 [] 0 0%Q false false 0 100 None cfg
    DEFAULT_STATS EmptyString [] None [] None false.

(** ** Metrics *)

Definition getCompletedCharCount (s : State) : nat :=
  if (currentWordIndex s =? 0) && (currentCharIndex s =? 0) then 0
  else if (length (charOffsets (words s)) =? 0)
          || (length (charOffsets (words s)) <=? currentWordIndex s) then 0
  else match charOffsets (words s) !! currentWordIndex s with
       | Some off => off + currentCharIndex s
       | None => 0
       end.

Definition getCorrectCharCount (s : State) : nat :=
  length (List.filter (fun b : bool => b) (correctChars s)).

Definition calculateCurrentAccuracy (s : State) : Z :=
  let totalChars := getCompletedCharCount s in
  if totalChars =? 0 then 100%Z
  else
    let correctCount := getCorrectCharCount s in
    Math_round ((inject_Z (Z.of_nat correctCount)
                 / inject_Z (Z.of_nat totalChars)) * 100)%Q.

Definition calculateAccuracy (s : State) : Z :=
  let totalChars := getCompletedCharCount s in
  if totalChars =? 0 then 100%Z
  else
    let correctCount := getCorrectCharCount s in
    Math_round ((inject_Z (Z.of_nat correctCount)
                 / inject_Z (Z.of_nat totalChars)) * 100)%Q.

(** [Math.round(wordsTyped / minutes) || 0] in [endTest].  With no elapsed
    time the quotient is [NaN] for no characters (replaced by [0]) and
    [Infinity] otherwise. *)
Definition finalWpm (s : State) : jsnum :=
  let minutes := (timeElapsed s / 60)%Q in
  let charsTyped := getCompletedCharCount s in
  let wordsTyped := (inject_Z (Z.of_nat charsTyped) / 5)%Q in
  if Qeq_bool minutes 0 then
    if charsTyped =? 0 then Fin 0 else Infinity
  else Fin (Math_round (wordsTyped / minutes)%Q).

(** ** Challenge and room registries *)

(** [Array.prototype.findIndex]; [-1] is [None]. *)
Fixpoint findIndex {A : Type} (f : A -> bool) (l : list A) : option nat :=
  match l with
  | [] => None
  | x :: rest => if f x then Some 0 else S <$> findIndex f rest
  end.

(** The participant list of one challenge after a result of [user].  The
    source copies the array and assigns the two fields of the found record. *)
Definition updateParticipants (user : string) (w : jsnum) (acc : Z)
    (ps : list Participant) : list Participant :=
  match findIndex (fun p => String.eqb (name p) user) ps with
  | Some existingUserIndex =>
      match ps !! existingUserIndex with
      | Some p =>
          if jsnum_ltb (pWpm p) w
          then <[existingUserIndex := mkParticipant (name p) w acc]> ps
          else ps
      | None => ps
      end
  | None => ps ++ [mkParticipant user w acc]
  end.

Definition updateChallengeResult (s : State) (challengeId : string)
    (w : jsnum) (acc : Z) : list Challenge :=
  map (fun challenge =>
         if String.eqb (cId challenge) challengeId then
           mkChallenge (cId challenge) (cCreatorName challenge)
             (cDifficulty challenge) (cMode challenge) (cLimit challenge)
             (expiresAt challenge)
             (Math_max (bestWpm challenge) w)
             (Z.max (bestAccuracy challenge) acc)
             (updateParticipants (userName s) w acc (participants challenge))
         else challenge)
      (challenges s).

Definition updateRoomResult (s : State) (roomId : string) (w : jsnum)
    (acc : Z) (prog : Z) : list Room :=
  map (fun room =>
         if String.eqb (rId room) roomId then
           mkRoom (rId room) (rName room) (rCreatorName room)
             (rDifficulty room) (rMode room) (rLimit room)
             (map (fun participant =>
                     if String.eqb (rpName participant) (userName s) then
                       mkRoomParticipant (rpId participant)
                         (rpName participant) prog w acc
                         (isActive participant)
                     else participant)
                  (rParticipants room))
         else room)
      (rooms s).

(** [createChallenge] at clock reading [now]; [newWords] are the words its
    [resetTest] generates. *)
Definition createChallenge (s : State) (now : Z) (idText : string)
    (newWords : list string) : State :=
  if negb (truthy (userName s)) then setShowNamePrompt true s
  else
    let newChallenge :=
      mkChallenge idText (userName s) (difficulty (settings s))
        (mode (settings s))
        (match mode (settings s) with
         | time => timeLimit (settings s)
         | wordsMode => Z.of_nat (wordCount (settings s))
         end)
        (now + 1000 * 60 * 60 * 24)%Z (Fin 0) 0 [] in
    let st := setChallenges (challenges s ++ [newChallenge]) s in
    let st := setActiveChallengeId (Some idText) st in
    resetTest newWords st.

(** ** Ending a session *)

(** The stats record [endTest] stores, from the stats and the session of the
    render it closes over. *)
Definition newStats (s : State) : TypingStats :=
  let charsTyped := getCompletedCharCount s in
  let w := finalWpm s in
  let acc := calculateAccuracy s in
  let totalCorrectChars := getCorrectCharCount s in
  let totalIncorrectChars :=
    (Z.of_nat charsTyped - Z.of_nat totalCorrectChars)%Z in
  mkStats
    (Math_max (wpm (stats s)) w)
    (Math_round (inject_Z (accuracy (stats s) + acc) / 2)%Q)
    (statCorrectChars (stats s) + Z.of_nat totalCorrectChars)%Z
    (incorrectChars (stats s) + totalIncorrectChars)%Z
    (totalChars (stats s) + Z.of_nat charsTyped)%Z
    (completedTests (stats s) + 1)%Z.

(** [endTest], called from a handler of render [s] with pending state [st]. *)
Definition endTest (s : State) (st : State) : State :=
  let st := setTestActive false st in
  let st := setTestComplete true st in
  let w := finalWpm s in
  let acc := calculateAccuracy s in
  let st := setStats (newStats s) st in
  let st :=
    match activeChallengeId s with
    | Some i =>
        if truthy i then setChallenges (updateChallengeResult s i w acc) st
        else st
    | None => st
    end in
  match activeRoomId s with
  | Some i =>
      if truthy i then setRooms (updateRoomResult s i w acc 100) st else st
  | None => st
  end.

(** ** The keystroke handler *)

(** The branch [value.length > currentInput.length] of [handleInputChange]
    ("User typed a character"), for the current word [currentWord]. *)
Definition typeCharacter (s : State) (currentWord value : string)
    (st : State) : State :=
  let typedChar := last_char value in
  let expectedChar := char_at (currentCharIndex s) currentWord in
  let isCorrect := bool_decide (typedChar = expectedChar) in
  let isStrict := AccuracyMode_eqb (accuracyMode (settings s)) strict in
  (* Update correctChars array *)
  let st :=
    match charOffsets (words s) !! currentWordIndex s with
    | Some off =>
        if currentCharIndex s <? String.length currentWord then
          let charPosition := off + currentCharIndex s in
          setCorrectChars (array_set (correctChars s) charPosition isCorrect) st
        else st
    | None => st
    end in
  let st := setCurrentAccuracy (calculateCurrentAccuracy s) st in
  (* strict: advance only if correct; relaxed: always advance *)
  let st :=
    if isStrict then
      let st :=
        if isCorrect then setCurrentCharIndex (currentCharIndex s + 1) st
        else st in
      setCurrentInput value st
    else
      let st := setCurrentCharIndex (currentCharIndex s + 1) st in
      setCurrentInput value st in
  (* Check if it's a space *)
  if bool_decide (typedChar = Some " "%char) then
    if isStrict && bool_decide (errorPosition s <> None) then st
    else if (currentCharIndex s =? String.length currentWord)
            || AccuracyMode_eqb (accuracyMode (settings s)) relaxed then
      let newIndex := currentWordIndex s + 1 in
      let st := setCurrentWordIndex newIndex st in
      let st := setCurrentCharIndex 0 st in
      let st := setCurrentInput EmptyString st in
      let st := setErrorPosition None st in
      if length (words s) <=? newIndex then endTest s st
      else if TypingMode_eqb (mode (settings s)) wordsMode
              && (wordCount (settings s) <=? newIndex) then endTest s st
      else st
    else st
  else st.

(** The branch [value.length < currentInput.length] ("Backspace handling"). *)
Definition backspace (s : State) (value : string) (st : State) : State :=
  if (currentCharIndex s =? 0) && (0 <? currentWordIndex s) then
    match words s !! (currentWordIndex s - 1) with
    | Some prevWord =>
        if negb (truthy prevWord) then st
        else
          let st := setCurrentWordIndex (currentWordIndex s - 1) st in
          let st := setCurrentCharIndex (String.length prevWord) st in
          setCurrentInput prevWord st
    | None => st
    end
  else if 0 <? currentCharIndex s then
    let st := setCurrentCharIndex (currentCharIndex s - 1) st in
    let st := setCurrentInput value st in
    let st :=
      match charOffsets (words s) !! currentWordIndex s with
      | Some off =>
          let charPosition := off + currentCharIndex s - 1 in
          if charPosition <? length (correctChars s) then
            setCorrectChars (<[charPosition := false]> (correctChars s)) st
          else st
      | None => st
      end in
    let st :=
      match errorPosition s with
      | Some e =>
          if AccuracyMode_eqb (accuracyMode (settings s)) strict
             && (currentCharIndex s - 1 <=? e)
          then setErrorPosition None st
          else st
      | None => st
      end in
    setCurrentAccuracy (calculateCurrentAccuracy s) st
  else st.

(** [handleInputChange] for the change event carrying [value], at clock
    reading [now] (the value of [Date.now()]). *)
Definition handleInputChange (s : State) (value : string) (now : Z) : State :=
  if testComplete s then s
  else
    let st :=
      if negb (testActive s) && (0 <? String.length value) then
        setStartTime now (setTestActive true s)
      else s in
    match words s !! currentWordIndex s with
    | None => st
    | Some currentWord =>
        if negb (truthy currentWord) then st
        else if String.length (currentInput s) <? String.length value then
          typeCharacter s currentWord value st
        else if String.length value <? String.length (currentInput s) then
          backspace s value st
        else st
    end.

(** ** The timer *)

(** One firing of the interval created by the render [c] (its callback, and
    the [endTest] it calls, read the cells of [c]), at clock reading [now],
    on the pending state [st].  The interval exists only for a render with
    [testActive && !testComplete]. *)
Definition tick (c : State) (now : Z) (st : State) : State :=
  if testActive c && negb (testComplete c) then
    let elapsed := (inject_Z (now - startTime c) / 1000)%Q in
    let st := setTimeElapsed elapsed st in
    let charsTyped := getCompletedCharCount c in
    let wordsTyped := (inject_Z (Z.of_nat charsTyped) / 5)%Q in
    let minutesElapsed := (elapsed / 60)%Q in
    let st :=
      if negb (Qle_bool minutesElapsed 0)
      then setCurrentWpm (Math_round (wordsTyped / minutesElapsed)%Q) st
      else st in
    let st :=
      if TypingMode_eqb (mode (settings c)) time
         && Qle_bool (inject_Z (timeLimit (settings c))) elapsed
      then endTest c st else st in
    if TypingMode_eqb (mode (settings c)) time
       && (length (words c) <=? currentWordIndex c)
    then endTest c st else st
  else st.

(** ** Changing the settings *)

(** The argument of [updateSettings], a [Partial<TypingSettings>]: the
    fields it carries. *)
Record SettingsPatch : Type := mkPatch {
  newMode : option TypingMode;
  newDifficulty : option TypingDifficulty;
  newTimeLimit : option Z;
  newWordCount : option nat;
  newSoundEnabled : option bool;
  newAccuracyMode : option AccuracyMode }.

(** [{ ...settings, ...newSettings }] *)
Definition spread (settings : TypingSettings) (newSettings : SettingsPatch)
    : TypingSettings :=
  mkSettings
    (default (mode settings) (newMode newSettings))
    (default (difficulty settings) (newDifficulty newSettings))
    (default (timeLimit settings) (newTimeLimit newSettings))
    (default (wordCount settings) (newWordCount newSettings))
    (default (soundEnabled settings) (newSoundEnabled newSettings))
    (default (accuracyMode settings) (newAccuracyMode newSettings)).

(** [updateSettings]: it writes the settings cell and nothing else. *)
Definition updateSettings (s : State) (newSettings : SettingsPatch) : State :=
  setSettings (spread (settings s) newSettings) s.

(** A change of the difficulty, the mode or the word count gives
    [generateWords], and with it [resetTest], a new identity, so that the
    effect on [[resetTest, settings.difficulty, settings.mode]] resets the
    test.  A change of the accuracy mode or of the sound resets nothing, nor
    does a change of the time limit once the first key is typed.  (Before
    the first key the effect on [[settings.wordCount, settings.timeLimit,
    ...]] answers a new time limit with [resetTest]: the state is again the
    start of a session, with newly drawn words.) *)
Definition keepsSession (s : State) (newSettings : SettingsPatch) : Prop :=
  mode (spread (settings s) newSettings) = mode (settings s)
  /\ difficulty (spread (settings s) newSettings) = difficulty (settings s)
  /\ wordCount (spread (settings s) newSettings) = wordCount (settings s).

(** ** Sessions *)

(** The states a session started in [s0] can reach: change events of the
    input field, firings of the interval of any earlier render, and changes
    of the settings that do not reset the test.  [allowed] restricts the
    settings the session may be switched to. *)
Inductive reachableUnder (allowed : TypingSettings -> Prop) (s0 : State)
    : State -> Prop :=
  | reach_start : reachableUnder allowed s0 s0
  | reach_input s value now :
      reachableUnder allowed s0 s ->
      reachableUnder allowed s0 (handleInputChange s value now)
  | reach_tick c s now :
      reachableUnder allowed s0 c -> reachableUnder allowed s0 s ->
      reachableUnder allowed s0 (tick c now s)
  | reach_settings s newSettings :
      reachableUnder allowed s0 s ->
      keepsSession s newSettings ->
      allowed (spread (settings s) newSettings) ->
      reachableUnder allowed s0 (updateSettings s newSettings).

(** Every state of a session, whatever the settings are switched to. *)
Definition reachable : State -> State -> Prop :=
  reachableUnder (fun _ : TypingSettings => True).

(** The settings with accuracy mode [policy]: [reachableUnder (under policy)]
    are the sessions that stay under that policy. *)
Definition under (policy : AccuracyMode) (cfg : TypingSettings) : Prop :=
  accuracyMode cfg = policy.

(** The input element is controlled ([value={currentInput}]): a key pressed
    in it fires a change event whose value is the rendered buffer with the
    character appended, and the backspace key one whose value is the buffer
    without its last character. *)
Definition press (s : State) (ch : ascii) (now : Z) : State :=
  handleInputChange s (String.append (currentInput s) (String ch EmptyString))
    now.

Definition pressBackspace (s : State) (now : Z) : State :=
  handleInputChange s
    (substring 0 (String.length (currentInput s) - 1) (currentInput s)) now.

(** Typing [text] key by key, every key at clock reading [now]. *)
Fixpoint typeText (s : State) (text : string) (now : Z) : State :=
  match text with
  | EmptyString => s
  | String ch rest => typeText (press s ch now) rest now
  end.

(** ** Vocabulary of the properties *)

(** The start of word [i] in the space-joined text: the lengths of the
    words before it, and one separator for each of them. *)
Definition offsetOf (ws : list string) (i : nat) : nat :=
  sum_list (String.length <$> take i ws) + length (take i ws).

(** The entries the loop pushes, without the accumulator. *)
Fixpoint pushed (visited : list string) (totalOffset : nat) : list nat :=
  match visited with
  | [] => []
  | w :: rest =>
      (totalOffset + (String.length w + 1))
        :: pushed rest (totalOffset + (String.length w + 1))
  end.

(** The five things a change event does to the cursor. *)
Inductive cursorMove (s s' : State) (value : string) : Prop :=
  | move_none :
      currentWordIndex s' = currentWordIndex s ->
      currentCharIndex s' = currentCharIndex s ->
      cursorMove s s' value
  | move_char w :
      words s !! currentWordIndex s = Some w ->
      String.length (currentInput s) < String.length value ->
      (accuracyMode (settings s) = strict ->
       last_char value = char_at (currentCharIndex s) w) ->
      currentWordIndex s' = currentWordIndex s ->
      currentCharIndex s' = currentCharIndex s + 1 ->
      cursorMove s s' value
  | move_next_word w :
      words s !! currentWordIndex s = Some w ->
      last_char value = Some " "%char ->
      (accuracyMode (settings s) = strict ->
       currentCharIndex s = String.length w /\ errorPosition s = None) ->
      currentWordIndex s' = currentWordIndex s + 1 ->
      currentCharIndex s' = 0 ->
      cursorMove s s' value
  | move_prev_word prevWord :
      words s !! (currentWordIndex s - 1) = Some prevWord ->
      0 < currentWordIndex s ->
      currentCharIndex s = 0 ->
      currentWordIndex s' = currentWordIndex s - 1 ->
      currentCharIndex s' = String.length prevWord ->
      cursorMove s s' value
  | move_back :
      0 < currentCharIndex s ->
      currentWordIndex s' = currentWordIndex s ->
      currentCharIndex s' = currentCharIndex s - 1 ->
      cursorMove s s' value.

(** What a change event does to the cursor and to the bitmap together. *)
Inductive bitmapStep (s s' : State) (value : string) : Prop :=
  | step_idle :
      currentWordIndex s' = currentWordIndex s ->
      currentCharIndex s' = currentCharIndex s ->
      correctChars s' = correctChars s ->
      bitmapStep s s' value
  | step_typed w :
      words s !! currentWordIndex s = Some w ->
      String.length (currentInput s) < String.length value ->
      correctChars s'
      = (if currentCharIndex s <? String.length w
         then array_set (correctChars s)
                (offsetOf (words s) (currentWordIndex s) + currentCharIndex s)
                (bool_decide (last_char value
                              = char_at (currentCharIndex s) w))
         else correctChars s) ->
      (currentWordIndex s' = currentWordIndex s
       /\ currentCharIndex s' = currentCharIndex s
       /\ last_char value <> char_at (currentCharIndex s) w)
      \/ (currentWordIndex s' = currentWordIndex s
          /\ currentCharIndex s' = currentCharIndex s + 1)
      \/ (currentWordIndex s' = currentWordIndex s + 1
          /\ currentCharIndex s' = 0) ->
      bitmapStep s s' value
  | step_prev_word prevWord :
      words s !! (currentWordIndex s - 1) = Some prevWord ->
      0 < currentWordIndex s ->
      currentCharIndex s = 0 ->
      currentWordIndex s' = currentWordIndex s - 1 ->
      currentCharIndex s' = String.length prevWord ->
      correctChars s' = correctChars s ->
      bitmapStep s s' value
  | step_back w :
      words s !! currentWordIndex s = Some w ->
      String.length value < String.length (currentInput s) ->
      0 < currentCharIndex s ->
      currentWordIndex s' = currentWordIndex s ->
      currentCharIndex s' = currentCharIndex s - 1 ->
      correctChars s'
      = (let charPosition :=
           offsetOf (words s) (currentWordIndex s) + currentCharIndex s - 1 in
         if charPosition <? length (correctChars s)
         then <[charPosition := false]> (correctChars s)
         else correctChars s) ->
      bitmapStep s s' value.

(** The character index is inside the current word or just past its last
    character. *)
Definition charBounded (s : State) : Prop :=
  forall w, words s !! currentWordIndex s = Some w ->
            currentCharIndex s <= String.length w.

(** A position of the bitmap is committed when it is a character of a word
    before the cursor: of an earlier word, or of the current word before the
    character index. *)
Definition committed (s : State) (p : nat) : Prop :=
  exists j c w,
    words s !! j = Some w /\ c < String.length w
    /\ p = offsetOf (words s) j + c
    /\ (j < currentWordIndex s
        \/ (j = currentWordIndex s /\ c < currentCharIndex s)).

(** The bitmap has one entry per character of the joined text, and only
    committed positions are marked correct. *)
Definition bitmapOK (s : State) : Prop :=
  length (correctChars s) = String.length (join_space (words s))
  /\ forall p, correctChars s !! p = Some true -> committed s p.

Definition strictSettings : TypingSettings :=
  mkSettings time medium 30 25 true strict.

Definition relaxedSettings : TypingSettings :=
  mkSettings time medium 30 25 true relaxed.

(** The patch of the accuracy-mode tabs. *)
Definition switchPolicy (policy : AccuracyMode) : SettingsPatch :=
  mkPatch None None None None None (Some policy).

(** The registry after one submitted result. *)
Definition submitResult (challengeId : string) (w : jsnum) (acc : Z)
    (s : State) : State :=
  setChallenges (updateChallengeResult s challengeId w acc) s.

Definition accuracy80 : State :=
  press (typeText (resetTest ["abcde"]%string (mount relaxedSettings))
           "abcdx" 7) " " 8.

Definition accuracy100 : State :=
  press (typeText (resetTest ["abcde"]%string accuracy80) "abcde" 9) " " 10.

Definition annChallenge : Challenge :=
  mkChallenge "1000" "ann" medium time 30 86401000 (Fin 40) 90
    [mkParticipant "ann" (Fin 40) 90].

(** ** Rendering a word ([WordDisplay]) *)

(** [hasBeenTyped] for character [i] of word [wordIndex]; [isCurrentWord] is
    [wordIndex === currentWordIndex] at the call in [renderTextContent]. *)
Definition hasBeenTyped (wordIndex i : nat) (s : State) : bool :=
  (wordIndex <? currentWordIndex s)
  || ((wordIndex =? currentWordIndex s) && (i <? currentCharIndex s)).

(** [correctChars[offset]] as a condition: a missing entry is falsy. *)
Definition marked (s : State) (offset : nat) : bool :=
  match correctChars s !! offset with
  | Some b => b
  | None => false
  end.

Inductive Colour : Type := emerald | red | plain.

(** The colour class of character [i] of word [wordIndex]: [charOffset] is
    [charOffsets[wordIndex] || 0] and the loop adds one per character. *)
Definition charColour (s : State) (wordIndex i : nat) : Colour :=
  let charOffset :=
    match charOffsets (words s) !! wordIndex with
    | Some off => off
    | None => 0
    end in
  let offset := charOffset + i in
  if hasBeenTyped wordIndex i s && marked s offset then emerald
  else if hasBeenTyped wordIndex i s && negb (marked s offset) then red
  else plain.

(** ** The visible window of words *)

Record VisibleRange : Type := mkRange { rangeStart : Z; rangeEnd : Z }.

(** The effect that follows the current word, run with the ref
    [shouldUpdateVisibleRange] holding [shouldUpdateVisibleRange]: the range
    it sets, or [None] when it sets nothing.  ([resetTest] sets the ref;
    [handleInputChange] clears it when it moves to another word and sets it
    again from a timeout.) *)
Definition followCurrentWord (shouldUpdateVisibleRange : bool)
    (currentWordIndex wordsLength : Z) (visibleRange : VisibleRange)
    : option VisibleRange :=
  let moved :=
    mkRange (Z.max 0 (currentWordIndex - 3))
      (Z.min wordsLength (currentWordIndex + 12)) in
  if negb shouldUpdateVisibleRange then None
  else if (rangeEnd visibleRange - 5 <? currentWordIndex)%Z then Some moved
  else if (currentWordIndex <? rangeStart visibleRange + 3)%Z
          && (3 <? currentWordIndex)%Z then Some moved
  else None.

(** ** Rooms and the user name *)

Definition saveUsername (newName : string) (s : State) : State :=
  setShowNamePrompt false (setUserName newName s).

(** [createRoom]; [idText] and [participantIdText] are the texts of its two
    clock readings, [newRoomName] the cell of that name, [newWords] the words
    of its [resetTest]. *)
Definition createRoom (s : State) (idText participantIdText : string)
    (newRoomName : string) (newWords : list string) : State :=
  if negb (truthy (userName s)) then setShowNamePrompt true s
  else
    let newRoom :=
      mkRoom idText
        (if truthy newRoomName then newRoomName
         else String.append (userName s) "'s Room")
        (userName s) (difficulty (settings s)) (mode (settings s))
        (match mode (settings s) with
         | time => timeLimit (settings s)
         | wordsMode => Z.of_nat (wordCount (settings s))
         end)
        [mkRoomParticipant participantIdText (userName s) 0 (Fin 0) 0 true] in
    let st := setRooms (rooms s ++ [newRoom]) s in
    let st := setActiveRoomId (Some idText) st in
    resetTest newWords st.

(** The participants of the joined room. *)
Definition joinParticipants (user participantIdText : string)
    (ps : list RoomParticipant) : list RoomParticipant :=
  match findIndex (fun p => String.eqb (rpName p) user) ps with
  | Some existingUserIndex =>
      match ps !! existingUserIndex with
      | Some p =>
          <[existingUserIndex :=
              mkRoomParticipant (rpId p) (rpName p) (progress p) (rpWpm p)
                (rpAccuracy p) true]> ps
      | None => ps
      end
  | None =>
      ps ++ [mkRoomParticipant participantIdText user 0 (Fin 0) 0 true]
  end.

Definition joinRoom (s : State) (roomId participantIdText : string)
    (newWords : list string) : State :=
  if negb (truthy (userName s)) then setShowNamePrompt true s
  else
    let st :=
      setRooms
        (map (fun room =>
                if String.eqb (rId room) roomId then
                  mkRoom (rId room) (rName room) (rCreatorName room)
                    (rDifficulty room) (rMode room) (rLimit room)
                    (joinParticipants (userName s) participantIdText
                       (rParticipants room))
                else room)
           (rooms s)) s in
    let st := setActiveRoomId (Some roomId) st in
    resetTest newWords st.

(** ** Vocabulary of the further properties *)

(** States reached key by key: every change event is one key appended to
    the rendered buffer or its last character removed; the timer fires and
    the settings change as in [reachableUnder]. *)
Inductive keyed (allowed : TypingSettings -> Prop) (s0 : State)
    : State -> Prop :=
  | keyed_start : keyed allowed s0 s0
  | keyed_press s ch now :
      keyed allowed s0 s -> keyed allowed s0 (press s ch now)
  | keyed_backspace s now :
      keyed allowed s0 s -> keyed allowed s0 (pressBackspace s now)
  | keyed_tick c s now :
      keyed allowed s0 c -> keyed allowed s0 s ->
      keyed allowed s0 (tick c now s)
  | keyed_settings s newSettings :
      keyed allowed s0 s ->
      keepsSession s newSettings ->
      allowed (spread (settings s) newSettings) ->
      keyed allowed s0 (updateSettings s newSettings).

(** [a <= b] on WPM figures. *)
Definition jsnum_le (a b : jsnum) : Prop := jsnum_ltb b a = false.

(** A challenge whose participants have distinct names and whose best
    figures dominate every participant's. *)
Definition challengeOK (c : Challenge) : Prop :=
  NoDup (name <$> participants c)
  /\ forall p, p ∈ participants c ->
       jsnum_le (pWpm p) (bestWpm c) /\ (pAccuracy p <= bestAccuracy c)%Z.

Definition roomOK (r : Room) : Prop := NoDup (rpName <$> rParticipants r).

(** The states the component can reach from [s0].  A firing of the timer
    reads the render [c] that created the interval, which can be any earlier
    state: the callback, and the [endTest] it calls, keep the cells of that
    render, also those (the user name, the registries) that are not among
    the dependencies of the effect. *)
Inductive appReachable (s0 : State) : State -> Prop :=
  | app_start : appReachable s0 s0
  | app_input s value now :
      appReachable s0 s -> appReachable s0 (handleInputChange s value now)
  | app_tick c s now :
      appReachable s0 c -> appReachable s0 s ->
      appReachable s0 (tick c now s)
  | app_reset s newWords :
      appReachable s0 s -> appReachable s0 (resetTest newWords s)
  | app_updateSettings s newSettings :
      appReachable s0 s -> appReachable s0 (updateSettings s newSettings)
  | app_createChallenge s now idText newWords :
      appReachable s0 s ->
      appReachable s0 (createChallenge s now idText newWords)
  | app_createRoom s idText pidText roomName newWords :
      appReachable s0 s ->
      appReachable s0 (createRoom s idText pidText roomName newWords)
  | app_joinRoom s roomId pidText newWords :
      appReachable s0 s ->
      appReachable s0 (joinRoom s roomId pidText newWords)
  | app_setUserName s newName :
      appReachable s0 s -> appReachable s0 (setUserName newName s)
  | app_saveUsername s newName :
      appReachable s0 s -> appReachable s0 (saveUsername newName s)
  | app_selectChallenge s o :
      appReachable s0 s -> appReachable s0 (setActiveChallengeId o s)
  | app_selectRoom s o :
      appReachable s0 s -> appReachable s0 (setActiveRoomId o s).

Definition registryOK (s : State) : Prop :=
  Forall challengeOK (challenges s) /\ Forall roomOK (rooms s).

(** ** Persisted cells ([useLocalStorage]) *)

Section UseLocalStorage.

Context {T : Type}.

(** [JSON.stringify] and [JSON.parse] at the type of the cell; a text that
    [JSON.parse] rejects (it throws, and the hook catches) is [None]. *)
Context (stringify : T -> string) (parse : string -> option T).





End UseLocalStorage.



(** ** The theme toggle *)

Inductive Theme : Type := light | dark.

Definition themeName (t : Theme) : string :=
  match t with
  | light => "light"%string
  | dark => "dark"%string
  end.

Definition toggleTheme (theme : Theme) : Theme :=
  match theme with
  | light => dark
  | dark => light
  end.

(** [classList.remove(a, b)] and [classList.add(x)] on the token list. *)
Definition classList_remove (a b : string) (classList : list string)
    : list string :=
  List.filter (fun x => negb (String.eqb x a) && negb (String.eqb x b))
    classList.

Definition classList_add (x : string) (classList : list string)
    : list string :=
  if existsb (String.eqb x) classList then classList else classList ++ [x].

(** The effect of [ThemeToggle] on the classes of the root element. *)
Definition applyTheme (theme : Theme) (classList : list string)
    : list string :=
  classList_add (themeName theme) (classList_remove "light" "dark" classList).

(** What a change event does under the strict policy. *)
Inductive strictStep (s s' : State) : Prop :=
  | strict_idle :
      currentWordIndex s' = currentWordIndex s ->
      currentCharIndex s' = currentCharIndex s ->
      correctChars s' = correctChars s ->
      strictStep s s'
  | strict_wrong w :
      words s !! currentWordIndex s = Some w ->
      currentWordIndex s' = currentWordIndex s ->
      currentCharIndex s' = currentCharIndex s ->
      correctChars s'
      = (if currentCharIndex s <? String.length w
         then array_set (correctChars s)
                (offsetOf (words s) (currentWordIndex s) + currentCharIndex s)
                false
         else correctChars s) ->
      strictStep s s'
  | strict_right w :
      words s !! currentWordIndex s = Some w ->
      currentCharIndex s < String.length w ->
      currentWordIndex s' = currentWordIndex s ->
      currentCharIndex s' = currentCharIndex s + 1 ->
      correctChars s'
      = array_set (correctChars s)
          (offsetOf (words s) (currentWordIndex s) + currentCharIndex s)
          true ->
      strictStep s s'
  | strict_next_word w :
      words s !! currentWordIndex s = Some w ->
      currentCharIndex s = String.length w ->
      currentWordIndex s' = currentWordIndex s + 1 ->
      currentCharIndex s' = 0 ->
      correctChars s' = correctChars s ->
      strictStep s s'
  | strict_prev_word prevWord :
      words s !! (currentWordIndex s - 1) = Some prevWord ->
      0 < currentWordIndex s ->
      currentCharIndex s = 0 ->
      currentWordIndex s' = currentWordIndex s - 1 ->
      currentCharIndex s' = String.length prevWord ->
      correctChars s' = correctChars s ->
      strictStep s s'
  | strict_back w :
      words s !! currentWordIndex s = Some w ->
      0 < currentCharIndex s ->
      currentWordIndex s' = currentWordIndex s ->
      currentCharIndex s' = currentCharIndex s - 1 ->
      correctChars s'
      = (let charPosition :=
           offsetOf (words s) (currentWordIndex s) + currentCharIndex s - 1 in
         if charPosition <? length (correctChars s)
         then <[charPosition := false]> (correctChars s)
         else correctChars s) ->
      strictStep s s'.

(** Under the strict policy the marked entries are exactly the committed
    positions, and they are as many as the characters before the cursor that
    are not separators. *)
Definition strictOK (s : State) : Prop :=
  (forall p, committed s p -> correctChars s !! p = Some true)
  /\ getCorrectCharCount s + currentWordIndex s
     = offsetOf (words s) (currentWordIndex s) + currentCharIndex s.

(** The text a user types for the words [ws]: each word and a separator. *)
Fixpoint textOf (ws : list string) : string :=
  match ws with
  | [] => EmptyString
  | w :: rest => String.append w (String " "%char (textOf rest))
  end.

(** A word the engine can take: not empty, and without a space in it. *)
Definition typable (w : string) : Prop :=
  truthy w = true /\ forall i, char_at i w <> Some " "%char.

(** * Properties *)

(** ** The character offset index *)

Section Offsets.

Lemma charOffsets_loop_pushed visited totalOffset offsets :
  charOffsets_loop visited totalOffset offsets
  = offsets ++ pushed visited totalOffset.
Proof.
  revert totalOffset offsets.
  induction visited as [|w rest IH]; intros t offs; simpl.
  - by rewrite app_nil_r.
  - rewrite IH, <- app_assoc. reflexivity.
Qed.

Lemma length_pushed visited t : length (pushed visited t) = length visited.
Proof.
  revert t. induction visited as [|w rest IH]; intros t; simpl; auto.
Qed.

Lemma pushed_lookup visited t i w :
  visited !! i = Some w ->
  pushed visited t !! i
  = Some (t + offsetOf visited i + (String.length w + 1)).
Proof.
  revert t i.
  induction visited as [|v rest IH]; intros t i Hw; [done|].
  destruct i as [|i]; simpl in *.
  - inversion Hw; subst. unfold offsetOf. csimpl. f_equal. lia.
  - rewrite (IH _ _ Hw). unfold offsetOf. csimpl. f_equal. lia.
Qed.

Lemma offsetOf_0 ws : offsetOf ws 0 = 0.
Proof. unfold offsetOf. by rewrite take_0. Qed.

Lemma offsetOf_S ws i w :
  ws !! i = Some w ->
  offsetOf ws (S i) = offsetOf ws i + String.length w + 1.
Proof.
  intros Hw. unfold offsetOf.
  rewrite (take_S_r _ _ _ Hw), fmap_app, sum_list_with_app, length_app.
  simpl. lia.
Qed.

Lemma offsetOf_take ws n i : i <= n -> offsetOf (take n ws) i = offsetOf ws i.
Proof.
  intros Hi. unfold offsetOf. rewrite take_take.
  by replace (i `min` n) with i by lia.
Qed.

Lemma length_charOffsets ws :
  length (charOffsets ws) = length ws `max` 1.
Proof.
  unfold charOffsets.
  rewrite charOffsets_loop_pushed, length_app, length_pushed, length_take.
  simpl. lia.
Qed.

(** Every entry of the table is the closed form. *)
Lemma charOffsets_lookup ws i :
  i < length ws `max` 1 -> charOffsets ws !! i = Some (offsetOf ws i).
Proof.
  intros Hi. unfold charOffsets. rewrite charOffsets_loop_pushed.
  destruct i as [|i]; [by rewrite offsetOf_0|].
  simpl.
  assert (Hlt : i < length ws) by lia.
  destruct (lookup_lt_is_Some_2 ws i Hlt) as [w Hw].
  assert (Hw' : take (length ws - 1) ws !! i = Some w).
  { rewrite lookup_take_lt by lia. exact Hw. }
  rewrite (pushed_lookup _ _ _ _ Hw'), offsetOf_take by lia.
  rewrite (offsetOf_S _ _ _ Hw). f_equal. lia.
Qed.

Lemma charOffsets_lookup_Some ws i off :
  charOffsets ws !! i = Some off -> off = offsetOf ws i.
Proof.
  intros H. pose proof (lookup_lt_Some _ _ _ H) as Hi.
  rewrite length_charOffsets in Hi.
  rewrite charOffsets_lookup in H by done. congruence.
Qed.

(** The table has an entry for every word. *)
Lemma charOffsets_word ws i w :
  ws !! i = Some w -> charOffsets ws !! i = Some (offsetOf ws i).
Proof.
  intros Hw. apply charOffsets_lookup.
  pose proof (lookup_lt_Some _ _ _ Hw). lia.
Qed.

End Offsets.

(** C8: the offset table starts at [0], each next entry adds the length of
    the word between the two entries and one separator, and so every entry
    is the sum of the lengths of the preceding words plus one separator for
    each of them.  The table has one entry for each word, and the one entry
    [0] for no words. *)
Theorem charOffsets_spec (ws : list string) :
  charOffsets ws !! 0 = Some 0
  /\ (forall i a b,
        charOffsets ws !! i = Some a ->
        charOffsets ws !! S i = Some b ->
        exists w, ws !! i = Some w /\ b = a + String.length w + 1)
  /\ (forall i a,
        charOffsets ws !! i = Some a ->
        a = sum_list (String.length <$> take i ws) + i
        /\ length (take i ws) = i)
  /\ length (charOffsets ws) = length ws `max` 1.
Proof.
  split; [|split; [|split; [|apply length_charOffsets]]].
  - rewrite charOffsets_lookup by lia. by rewrite offsetOf_0.
  - intros i a b Ha Hb.
    pose proof (lookup_lt_Some _ _ _ Hb) as Hi.
    rewrite length_charOffsets in Hi.
    assert (Hlt : i < length ws) by lia.
    destruct (lookup_lt_is_Some_2 ws i Hlt) as [w Hw].
    exists w. split; [done|].
    apply charOffsets_lookup_Some in Ha, Hb. subst.
    by apply offsetOf_S.
  - intros i a Ha.
    pose proof (lookup_lt_Some _ _ _ Ha) as Hi.
    rewrite length_charOffsets in Hi.
    apply charOffsets_lookup_Some in Ha. subst a. unfold offsetOf.
    rewrite length_take. lia.
Qed.

(** ** What [endTest] and the timer leave alone *)

Create Rewrite HintDb session.

Ltac crush_endTest :=
  unfold endTest; repeat case_match; reflexivity.

Lemma endTest_words s st : words (endTest s st) = words st.
Proof. crush_endTest. Qed.

Lemma endTest_currentInput s st : currentInput (endTest s st) = currentInput st.
Proof. crush_endTest. Qed.

Lemma endTest_currentWordIndex s st : currentWordIndex (endTest s st) = currentWordIndex st.
Proof. crush_endTest. Qed.

Lemma endTest_currentCharIndex s st : currentCharIndex (endTest s st) = currentCharIndex st.
Proof. crush_endTest. Qed.

Lemma endTest_correctChars s st : correctChars (endTest s st) = correctChars st.
Proof. crush_endTest. Qed.

Lemma endTest_startTime s st : startTime (endTest s st) = startTime st.
Proof. crush_endTest. Qed.

Lemma endTest_timeElapsed s st : timeElapsed (endTest s st) = timeElapsed st.
Proof. crush_endTest. Qed.

Lemma endTest_currentWpm s st : currentWpm (endTest s st) = currentWpm st.
Proof. crush_endTest. Qed.

Lemma endTest_currentAccuracy s st : currentAccuracy (endTest s st) = currentAccuracy st.
Proof. crush_endTest. Qed.

Lemma endTest_errorPosition s st : errorPosition (endTest s st) = errorPosition st.
Proof. crush_endTest. Qed.

Lemma endTest_settings s st : settings (endTest s st) = settings st.
Proof. crush_endTest. Qed.

Lemma endTest_userName s st : userName (endTest s st) = userName st.
Proof. crush_endTest. Qed.

Lemma endTest_activeChallengeId s st : activeChallengeId (endTest s st) = activeChallengeId st.
Proof. crush_endTest. Qed.

Lemma endTest_activeRoomId s st : activeRoomId (endTest s st) = activeRoomId st.
Proof. crush_endTest. Qed.

Lemma endTest_showNamePrompt s st : showNamePrompt (endTest s st) = showNamePrompt st.
Proof. crush_endTest. Qed.

Lemma endTest_testComplete s st : testComplete (endTest s st) = true.
Proof. crush_endTest. Qed.

Lemma endTest_testActive s st : testActive (endTest s st) = false.
Proof. crush_endTest. Qed.

Lemma endTest_stats s st : stats (endTest s st) = newStats s.
Proof. crush_endTest. Qed.

#[export] Hint Rewrite endTest_words endTest_currentInput endTest_currentWordIndex endTest_currentCharIndex endTest_correctChars endTest_startTime endTest_timeElapsed endTest_currentWpm endTest_currentAccuracy endTest_errorPosition endTest_settings endTest_userName endTest_activeChallengeId endTest_activeRoomId endTest_showNamePrompt
  endTest_testComplete endTest_testActive endTest_stats : session.

Ltac crush_tick :=
  unfold tick; repeat case_match; autorewrite with session; reflexivity.

Lemma tick_words c now st : words (tick c now st) = words st.
Proof. crush_tick. Qed.

Lemma tick_currentInput c now st : currentInput (tick c now st) = currentInput st.
Proof. crush_tick. Qed.

Lemma tick_currentWordIndex c now st : currentWordIndex (tick c now st) = currentWordIndex st.
Proof. crush_tick. Qed.

Lemma tick_currentCharIndex c now st : currentCharIndex (tick c now st) = currentCharIndex st.
Proof. crush_tick. Qed.

Lemma tick_correctChars c now st : correctChars (tick c now st) = correctChars st.
Proof. crush_tick. Qed.

Lemma tick_errorPosition c now st : errorPosition (tick c now st) = errorPosition st.
Proof. crush_tick. Qed.

Lemma tick_settings c now st : settings (tick c now st) = settings st.
Proof. crush_tick. Qed.

Lemma tick_userName c now st : userName (tick c now st) = userName st.
Proof. crush_tick. Qed.

Lemma tick_startTime c now st : startTime (tick c now st) = startTime st.
Proof. crush_tick. Qed.

#[export] Hint Rewrite tick_words tick_currentInput tick_currentWordIndex tick_currentCharIndex tick_correctChars tick_errorPosition tick_settings tick_userName tick_startTime : session.

(** ** Strings and tests *)

Lemma char_at_Some i w c : char_at i w = Some c -> i < String.length w.
Proof.
  unfold char_at. revert i.
  induction w as [|a w IH]; intros i H; [by destruct i|].
  destruct i as [|i]; simpl in *; [lia|].
  apply IH in H. lia.
Qed.

Lemma char_at_lt i w : i < String.length w -> is_Some (char_at i w).
Proof.
  unfold char_at. revert i.
  induction w as [|a w IH]; intros i H; simpl in *; [lia|].
  destruct i as [|i]; [by eexists|].
  apply IH. lia.
Qed.

Lemma last_char_is_Some value :
  0 < String.length value -> is_Some (last_char value).
Proof.
  intros H. unfold last_char.
  destruct (Nat.eqb_spec (String.length value) 0); [lia|].
  apply char_at_lt. lia.
Qed.

Lemma truthy_length w : truthy w = true -> 0 < String.length w.
Proof. destruct w; simpl; [discriminate|lia]. Qed.

Lemma AccuracyMode_eqb_eq a b : AccuracyMode_eqb a b = true <-> a = b.
Proof. destruct a, b; simpl; split; congruence. Qed.

Lemma AccuracyMode_eqb_neq a b : AccuracyMode_eqb a b = false <-> a <> b.
Proof. destruct a, b; simpl; split; congruence. Qed.

Lemma TypingMode_eqb_eq a b : TypingMode_eqb a b = true <-> a = b.
Proof. destruct a, b; simpl; split; congruence. Qed.

(** Turn the boolean tests of the handlers into propositions. *)
Ltac tests :=
  repeat match goal with
  | H : (_ <? _) = true |- _ => apply Nat.ltb_lt in H
  | H : (_ <? _) = false |- _ => apply Nat.ltb_ge in H
  | H : (_ <=? _) = true |- _ => apply Nat.leb_le in H
  | H : (_ <=? _) = false |- _ => apply Nat.leb_gt in H
  | H : (_ =? _) = true |- _ => apply Nat.eqb_eq in H
  | H : (_ =? _) = false |- _ => apply Nat.eqb_neq in H
  | H : negb _ = true |- _ => apply negb_true_iff in H
  | H : negb _ = false |- _ => apply negb_false_iff in H
  | H : _ && _ = true |- _ => apply andb_true_iff in H; destruct H
  | H : _ || _ = false |- _ => apply orb_false_iff in H; destruct H
  | H : _ && _ = false |- _ => apply andb_false_iff in H; destruct H
  | H : _ || _ = true |- _ => apply orb_true_iff in H; destruct H
  | H : bool_decide _ = true |- _ => apply bool_decide_eq_true_1 in H
  | H : bool_decide _ = false |- _ => apply bool_decide_eq_false_1 in H
  | H : AccuracyMode_eqb _ _ = true |- _ => apply AccuracyMode_eqb_eq in H
  | H : AccuracyMode_eqb _ _ = false |- _ => apply AccuracyMode_eqb_neq in H
  end.

(** Split a handler into its paths and reduce the cells of each result. *)
Ltac paths :=
  unfold handleInputChange, typeCharacter, backspace;
  repeat case_match; autorewrite with session; simpl; tests.

(** ** The handlers keep the session's words and configuration *)

Lemma handleInputChange_words s value now :
  words (handleInputChange s value now) = words s.
Proof. paths; reflexivity. Qed.

Lemma handleInputChange_settings s value now :
  settings (handleInputChange s value now) = settings s.
Proof. paths; reflexivity. Qed.

Lemma handleInputChange_errorPosition s value now :
  errorPosition s = None ->
  errorPosition (handleInputChange s value now) = None.
Proof. intros He. paths; congruence. Qed.

#[export] Hint Rewrite handleInputChange_words handleInputChange_settings
  : session.

(** [updateSettings] writes the settings cell only. *)
Lemma updateSettings_settings s newSettings :
  settings (updateSettings s newSettings) = spread (settings s) newSettings.
Proof. reflexivity. Qed.

Section Sessions.
Context {allowed : TypingSettings -> Prop}.

Lemma reachable_words s0 s : reachableUnder allowed s0 s -> words s = words s0.
Proof.
  induction 1; autorewrite with session; auto.
Qed.

(** A session keeps its mode, difficulty and word count. *)
Lemma reachable_mode s0 s :
  reachableUnder allowed s0 s -> mode (settings s) = mode (settings s0).
Proof.
  induction 1 as [| | |s p _ IH (Hm & _ & _) _];
    autorewrite with session; auto.
  rewrite updateSettings_settings. congruence.
Qed.

Lemma reachable_difficulty s0 s :
  reachableUnder allowed s0 s ->
  difficulty (settings s) = difficulty (settings s0).
Proof.
  induction 1 as [| | |s p _ IH (_ & Hd & _) _];
    autorewrite with session; auto.
  rewrite updateSettings_settings. congruence.
Qed.

Lemma reachable_wordCount s0 s :
  reachableUnder allowed s0 s ->
  wordCount (settings s) = wordCount (settings s0).
Proof.
  induction 1 as [| | |s p _ IH (_ & _ & Hn) _];
    autorewrite with session; auto.
  rewrite updateSettings_settings. congruence.
Qed.

(** The settings of a session stay among the allowed ones. *)
Lemma reachable_allowed s0 s :
  allowed (settings s0) -> reachableUnder allowed s0 s ->
  allowed (settings s).
Proof.
  intros H0. induction 1; autorewrite with session; auto.
Qed.

Lemma reachable_errorPosition s0 s :
  errorPosition s0 = None -> reachableUnder allowed s0 s ->
  errorPosition s = None.
Proof.
  intros H0. induction 1; autorewrite with session; auto.
  by apply handleInputChange_errorPosition.
Qed.

(** A restricted session is a session. *)
Lemma reachableUnder_reachable s0 s :
  reachableUnder allowed s0 s -> reachable s0 s.
Proof.
  unfold reachable.
  induction 1;
    [apply reach_start|by apply reach_input|by apply reach_tick
    |by apply reach_settings].
Qed.
End Sessions.

(** ** Where the cursor goes *)

Lemma handleInputChange_cursorMove s value now :
  cursorMove s (handleInputChange s value now) value.
Proof.
  paths;
    first
      [ by apply move_none
      | by (eapply move_char; eauto; congruence)
      | by (eapply move_next_word; autorewrite with session; eauto;
            try congruence;
            try (intros Hs; split; [lia || congruence|];
                 match goal with
                 | H : ~ (_ <> None) |- _ =>
                     destruct (errorPosition s); [exfalso; apply H|]; done
                 | _ => congruence
                 end))
      | by (eapply move_prev_word; eauto; lia)
      | by (apply move_back; simpl; lia) ].
Qed.

(** ** Cursor bounds *)

(** Under the strict policy a change event keeps the character index inside
    the current word. *)
Lemma handleInputChange_charBounded s value now :
  accuracyMode (settings s) = strict ->
  charBounded s -> charBounded (handleInputChange s value now).
Proof.
  intros Hs Hc. unfold charBounded.
  rewrite handleInputChange_words.
  destruct (handleInputChange_cursorMove s value now)
    as [Ew Ec|w Hcur Hlen Hok Ew Ec|w Hcur _ _ Ew Ec
       |prevWord Hprev Hpos Hzero Ew Ec|Hpos Ew Ec];
    rewrite Ew, Ec; clear Ew Ec.
  - exact Hc.
  - intros w' Hw'. simplify_eq.
    destruct (last_char_is_Some value) as [c Hc']; [lia|].
    rewrite (Hok Hs) in Hc'. apply char_at_Some in Hc'. lia.
  - intros; lia.
  - intros w' Hw'. simplify_eq. lia.
  - intros w' Hw'. specialize (Hc _ Hw'). lia.
Qed.

Lemma tick_charBounded c now s : charBounded s -> charBounded (tick c now s).
Proof. unfold charBounded. by autorewrite with session. Qed.

(** A change event keeps the word index at most the number of words. *)
Lemma handleInputChange_wordIndex s value now :
  currentWordIndex s <= length (words s) ->
  currentWordIndex (handleInputChange s value now)
  <= length (words (handleInputChange s value now)).
Proof.
  intros Hw. rewrite handleInputChange_words.
  destruct (handleInputChange_cursorMove s value now)
    as [Ew _|w _ _ _ Ew _|w Hcur _ _ Ew _|prevWord _ _ _ Ew _|_ Ew _];
    rewrite Ew; try lia.
  apply lookup_lt_Some in Hcur. lia.
Qed.

(** The word index is bounded in every session, whatever its settings are
    switched to. *)
Lemma reachable_wordIndex {allowed} s0 s :
  currentWordIndex s0 <= length (words s0) ->
  reachableUnder allowed s0 s ->
  currentWordIndex s <= length (words s).
Proof.
  intros H0. induction 1; auto using handleInputChange_wordIndex.
  by autorewrite with session.
Qed.

(** In a session whose policy is strict from its start on, the character
    index stays inside the current word. *)
Lemma strict_session_charBounded s0 s :
  accuracyMode (settings s0) = strict -> charBounded s0 ->
  reachableUnder (under strict) s0 s ->
  accuracyMode (settings s) = strict /\ charBounded s.
Proof.
  intros Hs H0 Hr.
  split; [exact (reachable_allowed _ _ Hs Hr)|].
  induction Hr as [|s value now Hr IH|c s now _ _ _ IH|s p _ IH _ _];
    auto using tick_charBounded.
  apply handleInputChange_charBounded; [|done].
  exact (reachable_allowed _ _ Hs Hr).
Qed.

(** A switch to the strict policy takes the cursor as it finds it: on the
    words "ab", "cd", after "abc" typed under the relaxed policy the
    character index is 3, and it is 3 still after the switch and a typed
    separator. *)
Lemma policy_switch_keeps_overshoot :
  let s0 := resetTest ["ab"; "cd"]%string (mount relaxedSettings) in
  let s1 := updateSettings (typeText s0 "abc" 7) (switchPolicy strict) in
  let s2 := press s1 " " 8 in
  reachable s0 s2
  /\ accuracyMode (settings s2) = strict
  /\ words s2 !! currentWordIndex s2 = Some "ab"%string
  /\ currentCharIndex s2 = 3.
Proof.
  split; [|by vm_compute].
  simpl. unfold press. apply reach_input, reach_settings; [| |done].
  - do 3 apply reach_input. apply reach_start.
  - by vm_compute.
Qed.

(** C2, as the code has it.  In every state a session reaches, whatever the
    change events, timer firings and changes of the settings before it, the
    word index is at most the number of words.  Every change event handled
    under the strict policy, and every firing of the timer, keeps the
    character index at most the length of the current word; so the bound
    holds in every state of a session whose policy is strict from its reset
    on.  (Under the relaxed policy each typed character increments the
    character index unconditionally, see [relaxed_cursor_overshoots], and a
    later switch to the strict policy takes the cursor as it is, see
    [policy_switch_keeps_overshoot].) *)
Theorem cursor_bounds (ws : list string) (base : State) :
  (forall s, reachable (resetTest ws base) s ->
     words s = ws /\ 0 <= currentWordIndex s <= length ws)
  /\ (forall s value now,
        accuracyMode (settings s) = strict ->
        (forall w, words s !! currentWordIndex s = Some w ->
                   currentCharIndex s <= String.length w) ->
        let s' := handleInputChange s value now in
        forall w, words s' !! currentWordIndex s' = Some w ->
                  0 <= currentCharIndex s' <= String.length w)
  /\ (forall c s now,
        (forall w, words s !! currentWordIndex s = Some w ->
                   currentCharIndex s <= String.length w) ->
        let s' := tick c now s in
        forall w, words s' !! currentWordIndex s' = Some w ->
                  0 <= currentCharIndex s' <= String.length w)
  /\ (accuracyMode (settings base) = strict ->
      forall s, reachableUnder (under strict) (resetTest ws base) s ->
        accuracyMode (settings s) = strict
        /\ forall w, ws !! currentWordIndex s = Some w ->
                     0 <= currentCharIndex s <= String.length w).
Proof.
  split_and!.
  - intros s Hr.
    pose proof (reachable_words _ _ Hr) as Hws. simpl in Hws.
    split; [done|]. split; [lia|]. rewrite <- Hws.
    refine (reachable_wordIndex (resetTest ws base) s _ Hr). simpl. lia.
  - intros s value now Hs Hc s' w Hw. split; [lia|].
    by apply (handleInputChange_charBounded s value now Hs Hc).
  - intros c s now Hc s' w Hw. split; [lia|].
    by apply (tick_charBounded c now s Hc).
  - intros Hs s Hr.
    pose proof (reachable_words _ _ Hr) as Hws. simpl in Hws.
    destruct (strict_session_charBounded (resetTest ws base) s) as [Hs' Hc];
      [done|intros w _; simpl; lia|done|].
    split; [done|]. intros w Hw. split; [lia|].
    apply Hc. by rewrite Hws.
Qed.

Lemma cursor_bounds_witness :
  let s0 := resetTest ["ab"; "cd"]%string (mount strictSettings) in
  let s := typeText s0 "abx" 7 in
  (words s = ["ab"; "cd"]%string /\ 0 <= currentWordIndex s <= 2)
  /\ (forall w, ["ab"; "cd"]%string !! currentWordIndex s = Some w ->
                0 <= currentCharIndex s <= String.length w).
Proof.
  destruct (cursor_bounds ["ab"; "cd"]%string (mount strictSettings))
    as (Hw & _ & _ & Hc).
  split.
  - apply Hw. simpl. do 3 apply reach_input. apply reach_start.
  - apply Hc; [reflexivity|].
    simpl. do 3 apply reach_input. apply reach_start.
Defined.

(** C2 fails under the relaxed policy: on the words "ab", "cd", the third
    typed character moves the character index to 3, past the two characters
    of the current word. *)
Lemma relaxed_cursor_overshoots :
  let s := typeText (resetTest ["ab"; "cd"]%string (mount relaxedSettings))
             "abc" 7 in
  currentWordIndex s = 0
  /\ words s !! currentWordIndex s = Some "ab"%string
  /\ currentCharIndex s = 3
  /\ String.length "ab" = 2.
Proof. vm_compute. repeat split. Qed.

(** ** The two accuracy policies *)

(** A change event that grows the buffer, on an unfinished session with a
    current word, runs the typed-character branch. *)
Lemma handleInputChange_typed s w value now :
  testComplete s = false ->
  words s !! currentWordIndex s = Some w ->
  truthy w = true ->
  String.length (currentInput s) < String.length value ->
  handleInputChange s value now
  = typeCharacter s w value
      (if negb (testActive s) && (0 <? String.length value)
       then setStartTime now (setTestActive true s) else s).
Proof.
  intros Hc Hw Ht Hlen. unfold handleInputChange.
  rewrite Hc, Hw, Ht. simpl.
  apply Nat.ltb_lt in Hlen. by rewrite Hlen.
Qed.

(** C3, as the code has it: for a typed character [c] on an unfinished
    session.  Under the strict policy the character index advances by one
    exactly when [c] is the expected character (and then stays on the word);
    a mistyped character other than the separator leaves the cursor where it
    is; a separator that is not the expected character moves to the start of
    the next word when the cursor is just past the word's last character and
    no error is pending, and leaves the cursor where it is otherwise.  Under
    the relaxed policy a typed character other than the separator advances
    the character index by one whether it is correct or not, and a typed
    separator moves to the start of the next word wherever the cursor is
    (see [relaxed_separator_leaves_the_word]). *)
Theorem keystroke_advance (s : State) (w value : string) (c : ascii)
    (now : Z) :
  testComplete s = false ->
  words s !! currentWordIndex s = Some w ->
  truthy w = true ->
  String.length (currentInput s) < String.length value ->
  last_char value = Some c ->
  let s' := handleInputChange s value now in
  let correct := char_at (currentCharIndex s) w = Some c in
  (accuracyMode (settings s) = strict ->
     (currentCharIndex s' = currentCharIndex s + 1 <-> correct)
     /\ (correct -> currentWordIndex s' = currentWordIndex s)
     /\ (~ correct -> c <> " "%char ->
         currentWordIndex s' = currentWordIndex s
         /\ currentCharIndex s' = currentCharIndex s)
     /\ (c = " "%char -> currentCharIndex s = String.length w ->
         errorPosition s = None ->
         currentWordIndex s' = currentWordIndex s + 1
         /\ currentCharIndex s' = 0)
     /\ (~ correct -> c = " "%char ->
         currentCharIndex s <> String.length w \/ errorPosition s <> None ->
         currentWordIndex s' = currentWordIndex s
         /\ currentCharIndex s' = currentCharIndex s))
  /\ (accuracyMode (settings s) = relaxed ->
      (c <> " "%char ->
       currentWordIndex s' = currentWordIndex s
       /\ currentCharIndex s' = currentCharIndex s + 1)
      /\ (c = " "%char ->
          currentWordIndex s' = currentWordIndex s + 1
          /\ currentCharIndex s' = 0)).
Proof.
  intros Hc Hw Ht Hlen Hlast s' correct. subst s' correct.
  rewrite (handleInputChange_typed s w value now Hc Hw Ht Hlen).
  unfold typeCharacter. rewrite Hlast.
  split.
  - intros Hs. rewrite Hs. simpl.
    repeat case_match; autorewrite with session; simpl; tests;
      repeat split; intros; simplify_eq; try done; try lia;
      try congruence; try tauto.
    all: try match goal with
         | H : char_at _ _ = Some _ |- _ => apply char_at_Some in H; lia
         end.
    all: try match goal with
         | H : _ \/ _ |- _ => destruct H; [lia|done]
         end.
  - intros Hr. rewrite Hr. simpl.
    repeat case_match; autorewrite with session; simpl; tests;
      repeat split; intros; simplify_eq; try done; congruence.
Qed.

Lemma keystroke_advance_witness :
  let s := resetTest ["ab"; "cd"]%string (mount relaxedSettings) in
  let s' := handleInputChange s "x" 7 in
  char_at (currentCharIndex s) "ab" <> Some "x"%char
  /\ currentWordIndex s' = currentWordIndex s
  /\ currentCharIndex s' = currentCharIndex s + 1.
Proof.
  split; [discriminate|].
  destruct (keystroke_advance
              (resetTest ["ab"; "cd"]%string (mount relaxedSettings))
              "ab" "x" "x"%char 7 eq_refl eq_refl eq_refl
              (le_n 1) eq_refl) as [_ Hrelaxed].
  apply Hrelaxed; [reflexivity|discriminate].
Defined.

(** C3 fails for the separator under the relaxed policy: on the words "ab",
    "cd", a separator typed after "a" takes the cursor from character 1 of
    word 0 to character 0 of word 1, not to character 2; the same happens
    on the words "a b", "cd", where the separator is the expected
    character. *)
Lemma relaxed_separator_leaves_the_word :
  let s := typeText (resetTest ["ab"; "cd"]%string (mount relaxedSettings))
             "a" 7 in
  let t := typeText (resetTest ["a b"; "cd"]%string (mount relaxedSettings))
             "a" 7 in
  (testActive s = true /\ testComplete s = false
   /\ accuracyMode (settings s) = relaxed
   /\ (currentWordIndex s, currentCharIndex s) = (0, 1)
   /\ (currentWordIndex (press s " " 8), currentCharIndex (press s " " 8))
      = (1, 0))
  /\ (char_at (currentCharIndex t) "a b" = Some " "%char
      /\ (currentWordIndex t, currentCharIndex t) = (0, 1)
      /\ (currentWordIndex (press t " " 8), currentCharIndex (press t " " 8))
         = (1, 0)).
Proof. by vm_compute. Qed.

(** ** The correctness bitmap *)

Section OffsetsOrder.

Lemma offsetOf_cons w rest i :
  offsetOf (w :: rest) (S i) = String.length w + 1 + offsetOf rest i.
Proof. unfold offsetOf. csimpl. lia. Qed.

Lemma offsetOf_mono ws i k : i <= k -> offsetOf ws i <= offsetOf ws k.
Proof.
  revert i k. induction ws as [|w rest IH]; intros i k Hik.
  - unfold offsetOf. by rewrite !take_nil.
  - destruct i as [|i]; [rewrite offsetOf_0; lia|].
    destruct k as [|k]; [lia|].
    rewrite !offsetOf_cons. specialize (IH i k). lia.
Qed.

Lemma length_append a b :
  String.length (String.append a b) = String.length a + String.length b.
Proof. induction a as [|x a IH]; simpl; auto. Qed.

(** The space-joined text ends where a further word would start, less the
    separator in front of it. *)
Lemma length_join_space ws :
  String.length (join_space ws) = offsetOf ws (length ws) - 1.
Proof.
  induction ws as [|w rest IH]; [done|].
  change (length (w :: rest)) with (S (length rest)).
  rewrite offsetOf_cons.
  destruct rest as [|w' rest'].
  - rewrite offsetOf_0. simpl. lia.
  - change (join_space (w :: w' :: rest'))
      with (String.append w (String " "%char (join_space (w' :: rest')))).
    rewrite length_append.
    change (String.length (String " "%char (join_space (w' :: rest'))))
      with (S (String.length (join_space (w' :: rest')))).
    rewrite IH.
    change (length (w' :: rest')) with (S (length rest')).
    rewrite offsetOf_cons. lia.
Qed.

(** A character of a word has its own place in the joined text. *)
Lemma letter_in_text ws j w c :
  ws !! j = Some w -> c < String.length w ->
  offsetOf ws j + c < String.length (join_space ws).
Proof.
  intros Hw Hc. rewrite length_join_space.
  pose proof (lookup_lt_Some _ _ _ Hw) as Hj.
  pose proof (offsetOf_mono ws (S j) (length ws) ltac:(lia)) as Hm.
  rewrite (offsetOf_S _ _ _ Hw) in Hm. lia.
Qed.

(** A word ends before a later word starts. *)
Lemma word_before ws j k w :
  ws !! j = Some w -> j < k ->
  offsetOf ws j + String.length w < offsetOf ws k.
Proof.
  intros Hw Hjk.
  pose proof (offsetOf_mono ws (S j) k ltac:(lia)) as Hm.
  rewrite (offsetOf_S _ _ _ Hw) in Hm. lia.
Qed.

End OffsetsOrder.

Lemma array_set_inside a i v : i < length a -> array_set a i v = <[i := v]> a.
Proof. intros H. unfold array_set. apply Nat.ltb_lt in H. by rewrite H. Qed.

(** The table the handler indexes has the closed form at the current word. *)
Ltac offsets :=
  repeat match goal with
  | H : charOffsets ?ws !! _ = Some _ |- _ =>
      apply charOffsets_lookup_Some in H; subst
  | W : ?ws !! ?i = Some _, H : charOffsets ?ws !! ?i = None |- _ =>
      rewrite (charOffsets_word _ _ _ W) in H; discriminate
  end.

(** Put the tests back into the shape the step relation states. *)
Ltac retest :=
  cbv zeta;
  repeat match goal with
  | H : ?a < ?b |- context [?a <? ?b] => rewrite (proj2 (Nat.ltb_lt a b) H)
  | H : ?b <= ?a |- context [?a <? ?b] => rewrite (proj2 (Nat.ltb_ge a b) H)
  | H : ?P |- context [bool_decide ?P] =>
      rewrite (bool_decide_eq_true_2 P H)
  | H : ~ ?P |- context [bool_decide ?P] =>
      rewrite (bool_decide_eq_false_2 P H)
  end;
  reflexivity.

Lemma handleInputChange_bitmapStep s value now :
  bitmapStep s (handleInputChange s value now) value.
Proof.
  paths; offsets;
    first
      [ by apply step_idle
      | by (eapply step_prev_word; eauto; lia)
      | by (eapply step_back; autorewrite with session; simpl; eauto;
            try lia; retest)
      | by (eapply step_typed; autorewrite with session; simpl; eauto;
            try lia; try retest;
            first [ right; left; split; reflexivity
                  | right; right; split; reflexivity
                  | left; repeat split; congruence ])
      ].
  Unshelve. all: exact EmptyString.
Qed.

Lemma committed_before s p :
  committed s p ->
  forall w, words s !! currentWordIndex s = Some w ->
  p < offsetOf (words s) (currentWordIndex s)
      + currentCharIndex s `min` String.length w.
Proof.
  intros (j & c & wj & Hj & Hc & -> & [Hlt|[-> Hlt]]) w Hw.
  - pose proof (word_before _ _ _ _ Hj Hlt). lia.
  - simplify_eq. lia.
Qed.

(** No entry at or after the cursor is marked. *)
Lemma bitmapOK_unmarked s w p :
  bitmapOK s -> words s !! currentWordIndex s = Some w ->
  offsetOf (words s) (currentWordIndex s)
    + currentCharIndex s `min` String.length w <= p ->
  correctChars s !! p <> Some true.
Proof.
  intros [_ Hclean] Hw Hp Htrue.
  pose proof (committed_before _ _ (Hclean _ Htrue) _ Hw). lia.
Qed.

Lemma handleInputChange_bitmapOK s value now :
  bitmapOK s -> bitmapOK (handleInputChange s value now).
Proof.
  intros [Hlen Hclean]. unfold bitmapOK, committed.
  rewrite handleInputChange_words.
  destruct (handleInputChange_bitmapStep s value now)
    as [Ew Ec Eb|w Hw _ Eb Hcur|prevWord Hprev Hpos Hzero Ew Ec Eb
       |w Hw _ Hpos Ew Ec Eb].
  - rewrite Ew, Ec, Eb. by split.
  - assert (Hcur' : (currentWordIndex s < currentWordIndex (handleInputChange s value now))
                \/ (currentWordIndex (handleInputChange s value now) = currentWordIndex s
                    /\ currentCharIndex s <= currentCharIndex (handleInputChange s value now)))
      by (destruct Hcur as [(?&?&?)|[[? ?]|[? ?]]]; lia).
    assert (Hkeep : forall p, committed s p ->
              exists j c wj, words s !! j = Some wj /\ c < String.length wj
                /\ p = offsetOf (words s) j + c
                /\ (j < currentWordIndex (handleInputChange s value now)
                    \/ (j = currentWordIndex (handleInputChange s value now)
                        /\ c < currentCharIndex (handleInputChange s value now)))).
    { intros p (j & c & wj & Hj & Hc & Hp & Hbefore).
      exists j, c, wj. repeat split; try done. lia. }
    rewrite Eb. destruct (Nat.ltb_spec (currentCharIndex s) (String.length w))
      as [Hin|Hout]; [|by split; [|intros p Hp; apply Hkeep, Hclean]].
    pose proof (letter_in_text _ _ _ _ Hw Hin) as Hrange.
    rewrite array_set_inside by lia.
    split; [by rewrite length_insert|].
    intros p Hp.
    destruct (decide (p = offsetOf (words s) (currentWordIndex s)
                          + currentCharIndex s)) as [->|Hne].
    + rewrite list_lookup_insert_eq in Hp by lia.
      injection Hp as Hp. apply bool_decide_eq_true_1 in Hp.
      exists (currentWordIndex s), (currentCharIndex s), w.
      repeat split; try done.
      destruct Hcur as [(?&?&?)|[[? ?]|[? ?]]]; [done|lia|lia].
    + rewrite list_lookup_insert_ne in Hp by done.
      by apply Hkeep, Hclean.
  - rewrite Ew, Ec, Eb. split; [done|].
    intros p Hp.
    destruct (Hclean p Hp) as (j & c & wj & Hj & Hc & -> & Hbefore).
    exists j, c, wj. repeat split; try done.
    destruct (decide (j = currentWordIndex s - 1)) as [->|Hne].
    + right. split; [done|]. simplify_eq. done.
    + left. lia.
  - rewrite Ew, Ec, Eb. cbv zeta.
    set (pos := offsetOf (words s) (currentWordIndex s)
                + currentCharIndex s - 1).
    assert (Hgone : forall p,
              (if pos <? length (correctChars s)
               then <[pos := false]> (correctChars s)
               else correctChars s) !! p = Some true ->
              p <> pos /\ correctChars s !! p = Some true).
    { intros p. destruct (Nat.ltb_spec pos (length (correctChars s))) as [Hin|Hout].
      - destruct (decide (p = pos)) as [->|Hne].
        + by rewrite list_lookup_insert_eq.
        + by rewrite list_lookup_insert_ne.
      - intros Hp. split; [|done]. intros ->.
        rewrite lookup_ge_None_2 in Hp by lia. done. }
    split.
    + destruct (pos <? length (correctChars s)); by rewrite ?length_insert.
    + intros p Hp. destruct (Hgone p Hp) as [Hne Hold].
      destruct (Hclean p Hold) as (j & c & wj & Hj & Hc & -> & Hbefore).
      exists j, c, wj. repeat split; try done.
      destruct Hbefore as [?|[-> ?]]; [by left|].
      right. split; [done|]. subst pos. lia.
Qed.

Lemma tick_bitmapOK c now s : bitmapOK s -> bitmapOK (tick c now s).
Proof. unfold bitmapOK, committed. by autorewrite with session. Qed.

Lemma resetTest_bitmapOK ws base : bitmapOK (resetTest ws base).
Proof.
  split; simpl.
  - by rewrite length_replicate.
  - intros p Hp. apply lookup_replicate in Hp as [? _]. done.
Qed.

Lemma reachable_bitmapOK {allowed} s0 s :
  bitmapOK s0 -> reachableUnder allowed s0 s -> bitmapOK s.
Proof.
  intros H0. induction 1;
    auto using handleInputChange_bitmapOK, tick_bitmapOK.
Qed.

(** *** One entry per keystroke *)

Lemma handleInputChange_typed_correctChars s w value now :
  testComplete s = false ->
  words s !! currentWordIndex s = Some w ->
  truthy w = true ->
  String.length (currentInput s) < String.length value ->
  correctChars (handleInputChange s value now)
  = if currentCharIndex s <? String.length w
    then array_set (correctChars s)
           (offsetOf (words s) (currentWordIndex s) + currentCharIndex s)
           (bool_decide (last_char value = char_at (currentCharIndex s) w))
    else correctChars s.
Proof.
  intros Hc Hw Ht Hlen.
  rewrite (handleInputChange_typed s w value now Hc Hw Ht Hlen).
  unfold typeCharacter.
  rewrite (charOffsets_word _ _ _ Hw).
  repeat case_match; autorewrite with session; reflexivity.
Qed.

(** A change event that shrinks the buffer with the cursor inside a word. *)
Lemma handleInputChange_back s w value now :
  testComplete s = false ->
  words s !! currentWordIndex s = Some w ->
  truthy w = true ->
  String.length value < String.length (currentInput s) ->
  0 < currentCharIndex s ->
  let s' := handleInputChange s value now in
  currentWordIndex s' = currentWordIndex s
  /\ currentCharIndex s' = currentCharIndex s - 1
  /\ correctChars s'
     = (let charPosition :=
          offsetOf (words s) (currentWordIndex s) + currentCharIndex s - 1 in
        if charPosition <? length (correctChars s)
        then <[charPosition := false]> (correctChars s)
        else correctChars s).
Proof.
  intros Hc Hw Ht Hlen Hpos. unfold handleInputChange, backspace.
  rewrite Hc, Hw, Ht, (charOffsets_word _ _ _ Hw). simpl.
  replace (String.length (currentInput s) <? String.length value) with false
    by (symmetry; apply Nat.ltb_ge; lia).
  replace (String.length value <? String.length (currentInput s)) with true
    by (symmetry; apply Nat.ltb_lt; lia).
  replace (currentCharIndex s =? 0) with false
    by (symmetry; apply Nat.eqb_neq; lia).
  replace (0 <? currentCharIndex s) with true
    by (symmetry; apply Nat.ltb_lt; lia).
  simpl. repeat case_match; simpl; auto.
Qed.

(** C10, as the code has it: in a state a session reaches, a typed character
    writes the bitmap entry at [offset[wordIndex] + charIndex] when the
    character index is inside the current word and writes nothing otherwise;
    a backspace with the character index above zero resets the entry at
    [offset[wordIndex] + charIndex - 1] when that position is inside the
    bitmap (it is whenever the character index is at most the word's length)
    and writes nothing otherwise.  Every other entry, and the length of the
    bitmap, stay as they were. *)
Theorem bitmap_frame (ws : list string) (base s : State) (w value : string)
    (now : Z) :
  reachable (resetTest ws base) s ->
  testComplete s = false ->
  ws !! currentWordIndex s = Some w ->
  truthy w = true ->
  let s' := handleInputChange s value now in
  exists off,
    charOffsets ws !! currentWordIndex s = Some off
    /\ (String.length (currentInput s) < String.length value ->
        let pos := off + currentCharIndex s in
        length (correctChars s') = length (correctChars s)
        /\ (forall p, p <> pos -> correctChars s' !! p = correctChars s !! p)
        /\ (String.length w <= currentCharIndex s ->
            correctChars s' = correctChars s)
        /\ (currentCharIndex s < String.length w ->
            correctChars s' !! pos
            = Some (bool_decide
                      (last_char value = char_at (currentCharIndex s) w))))
    /\ (String.length value < String.length (currentInput s) ->
        0 < currentCharIndex s ->
        let pos := off + currentCharIndex s - 1 in
        length (correctChars s') = length (correctChars s)
        /\ (forall p, p <> pos -> correctChars s' !! p = correctChars s !! p)
        /\ (pos < length (correctChars s) ->
            correctChars s' !! pos = Some false)
        /\ (length (correctChars s) <= pos ->
            correctChars s' = correctChars s)
        /\ (currentCharIndex s <= String.length w ->
            pos < length (correctChars s))).
Proof.
  intros Hr Hc Hw Ht s'. subst s'.
  pose proof (reachable_words _ _ Hr) as Hws. simpl in Hws.
  destruct (reachable_bitmapOK _ _ (resetTest_bitmapOK ws base) Hr)
    as [Hsize _].
  rewrite <- Hws in Hw |- *.
  exists (offsetOf (words s) (currentWordIndex s)).
  split; [by eapply charOffsets_word|]. split.
  - intros Hlen. cbv zeta.
    rewrite (handleInputChange_typed_correctChars s w value now Hc Hw Ht Hlen).
    destruct (Nat.ltb_spec (currentCharIndex s) (String.length w))
      as [Hin|Hout].
    + pose proof (letter_in_text _ _ _ _ Hw Hin) as Hrange.
      rewrite array_set_inside by lia.
      repeat split.
      * by rewrite length_insert.
      * intros p Hp. by rewrite list_lookup_insert_ne.
      * lia.
      * intros _. rewrite list_lookup_insert_eq by lia. done.
    + repeat split; auto; lia.
  - intros Hlen Hpos. cbv zeta.
    destruct (handleInputChange_back s w value now Hc Hw Ht Hlen Hpos)
      as (_ & _ & ->). cbv zeta.
    destruct (Nat.ltb_spec
                (offsetOf (words s) (currentWordIndex s)
                 + currentCharIndex s - 1) (length (correctChars s)))
      as [Hin|Hout].
    + repeat split.
      * by rewrite length_insert.
      * intros p Hp. by rewrite list_lookup_insert_ne.
      * intros _. by rewrite list_lookup_insert_eq.
      * lia.
      * done.
    + repeat split; auto; try lia.
      intros Hle.
      assert (Hin : currentCharIndex s - 1 < String.length w) by lia.
      pose proof (letter_in_text _ _ _ _ Hw Hin). lia.
Qed.

Lemma bitmap_frame_witness :
  let s := typeText (resetTest ["ab"; "cd"]%string (mount relaxedSettings))
             "a" 7 in
  let s' := handleInputChange s "" 9 in
  reachable (resetTest ["ab"; "cd"]%string (mount relaxedSettings)) s
  /\ testComplete s = false
  /\ ["ab"; "cd"]%string !! currentWordIndex s = Some "ab"%string
  /\ truthy "ab" = true
  /\ length (correctChars s') = length (correctChars s)
  /\ (forall p, p <> 0 -> correctChars s' !! p = correctChars s !! p)
  /\ correctChars s' !! 0 = Some false.
Proof.
  intros s s'.
  assert (Hr : reachable
                 (resetTest ["ab"; "cd"]%string (mount relaxedSettings)) s).
  { subst s. simpl. apply reach_input, reach_start. }
  destruct (bitmap_frame ["ab"; "cd"]%string (mount relaxedSettings) s
              "ab" "" 9 Hr eq_refl eq_refl eq_refl)
    as (off & Hoff & _ & Hback).
  vm_compute in Hoff. injection Hoff as <-.
  destruct Hback as (Hlen & Hframe & Hreset & _).
  { vm_compute. lia. }
  { vm_compute. lia. }
  split; [exact Hr|]. do 3 (split; [reflexivity|]).
  split; [exact Hlen|]. split; [exact Hframe|].
  apply Hreset. vm_compute. lia.
Defined.

(** C10 fails as stated: under the relaxed policy on the single word "ab",
    after "abx" the character index is 3, and a backspace there targets
    position 2 of a bitmap of length 2: no entry is reset. *)
Lemma backspace_past_bitmap_resets_nothing :
  let s := typeText (resetTest ["ab"]%string (mount relaxedSettings))
             "abx" 7 in
  let s' := pressBackspace s 9 in
  currentCharIndex s = 3
  /\ currentCharIndex s' = 2
  /\ charOffsets (words s) !! currentWordIndex s = Some 0
  /\ correctChars s = [true; true]
  /\ correctChars s' = [true; true]
  /\ correctChars s !! (0 + 3 - 1) = None.
Proof. vm_compute. repeat split. Qed.

(** ** Backspace after a keystroke *)

Lemma char_at_append_end a c :
  char_at (String.length a) (String.append a (String c EmptyString)) = Some c.
Proof. unfold char_at. induction a as [|x a IH]; simpl; auto. Qed.

Lemma last_char_append a c :
  last_char (String.append a (String c EmptyString)) = Some c.
Proof.
  unfold last_char. rewrite length_append. simpl.
  replace (String.length a + 1 =? 0) with false
    by (symmetry; apply Nat.eqb_neq; lia).
  replace (String.length a + 1 - 1) with (String.length a) by lia.
  apply char_at_append_end.
Qed.

(** A key other than the separator that the policy accepts: the cursor moves
    one character on, the buffer takes the key, the session stays open. *)
Lemma press_accepted s w c now :
  testComplete s = false ->
  words s !! currentWordIndex s = Some w ->
  truthy w = true ->
  c <> " "%char ->
  accuracyMode (settings s) = relaxed
  \/ char_at (currentCharIndex s) w = Some c ->
  let s1 := press s c now in
  testComplete s1 = false
  /\ currentWordIndex s1 = currentWordIndex s
  /\ currentCharIndex s1 = currentCharIndex s + 1
  /\ String.length (currentInput s1) = String.length (currentInput s) + 1.
Proof.
  intros Hc Hw Ht Hsp Hok. unfold press.
  rewrite (handleInputChange_typed s w _ now Hc Hw Ht)
    by (rewrite length_append; simpl; lia).
  unfold typeCharacter. rewrite last_char_append.
  repeat case_match; autorewrite with session; simpl; tests;
    rewrite ?length_append; simpl;
    repeat split; try done; try lia; try congruence;
    destruct Hok; congruence.
Qed.

(** C5, as the code has it: in a state a session reaches, after a key other
    than the separator that moves the character index (any such key under
    the relaxed policy, the expected character under the strict policy), a
    change event that shrinks the buffer puts the cursor and the bitmap back
    exactly as they were before the key. *)
Theorem backspace_restores (ws : list string) (base s : State) (w : string)
    (c : ascii) (now : Z) (value' : string) (now' : Z) :
  reachable (resetTest ws base) s ->
  testComplete s = false ->
  ws !! currentWordIndex s = Some w ->
  truthy w = true ->
  c <> " "%char ->
  accuracyMode (settings s) = relaxed
  \/ char_at (currentCharIndex s) w = Some c ->
  String.length value' <= String.length (currentInput s) ->
  let s1 := press s c now in
  let s2 := handleInputChange s1 value' now' in
  currentWordIndex s2 = currentWordIndex s
  /\ currentCharIndex s2 = currentCharIndex s
  /\ correctChars s2 = correctChars s.
Proof.
  intros Hr Hc Hw Ht Hsp Hok Hshrink s1 s2.
  pose proof (reachable_words _ _ Hr) as Hws. simpl in Hws.
  pose proof (reachable_bitmapOK _ _ (resetTest_bitmapOK ws base) Hr) as HOK.
  rewrite <- Hws in Hw.
  destruct (press_accepted s w c now Hc Hw Ht Hsp Hok)
    as (Hc1 & Hw1 & Hi1 & Hlen1). fold s1 in Hc1, Hw1, Hi1, Hlen1.
  assert (Hwords1 : words s1 = words s)
    by apply handleInputChange_words.
  assert (Hcur1 : words s1 !! currentWordIndex s1 = Some w)
    by (rewrite Hwords1, Hw1; exact Hw).
  destruct (handleInputChange_back s1 w value' now' Hc1 Hcur1 Ht
              ltac:(lia) ltac:(lia)) as (Ew & Ec & Eb).
  fold s2 in Ew, Ec, Eb.
  split; [lia|]. split; [lia|].
  rewrite Eb. cbv zeta. rewrite Hwords1, Hw1, Hi1.
  replace (offsetOf (words s) (currentWordIndex s)
           + (currentCharIndex s + 1) - 1)
    with (offsetOf (words s) (currentWordIndex s) + currentCharIndex s)
    by lia.
  set (pos := offsetOf (words s) (currentWordIndex s) + currentCharIndex s).
  assert (Hclear : pos < length (correctChars s) ->
                   correctChars s !! pos = Some false).
  { intros Hin. destruct (lookup_lt_is_Some_2 _ _ Hin) as [[|] Hb]; [|done].
    exfalso. revert Hb. apply (bitmapOK_unmarked s w); [done..|].
    subst pos. lia. }
  assert (Eb1 : correctChars s1
                = if currentCharIndex s <? String.length w
                  then array_set (correctChars s) pos
                         (bool_decide
                            (last_char
                               (String.append (currentInput s)
                                  (String c EmptyString))
                             = char_at (currentCharIndex s) w))
                  else correctChars s).
  { subst s1 pos. unfold press.
    apply handleInputChange_typed_correctChars; try done.
    rewrite length_append. simpl. lia. }
  rewrite Eb1.
  destruct (Nat.ltb_spec (currentCharIndex s) (String.length w))
    as [Hin|Hout].
  - pose proof (letter_in_text _ _ _ _ Hw Hin) as Hrange.
    destruct HOK as [Hsize _]. fold pos in Hrange.
    rewrite array_set_inside by lia.
    rewrite length_insert.
    replace (pos <? length (correctChars s)) with true
      by (symmetry; apply Nat.ltb_lt; lia).
    rewrite list_insert_insert_eq.
    apply list_insert_id, Hclear. lia.
  - destruct (Nat.ltb_spec pos (length (correctChars s))) as [Hin|Hpast];
      [|done].
    by apply list_insert_id, Hclear.
Qed.

Lemma backspace_restores_witness :
  let s := typeText (resetTest ["ab"; "cd"]%string (mount strictSettings))
             "a" 7 in
  let s2 := handleInputChange (press s "b" 8) "a" 9 in
  reachable (resetTest ["ab"; "cd"]%string (mount strictSettings)) s
  /\ testComplete s = false
  /\ ["ab"; "cd"]%string !! currentWordIndex s = Some "ab"%string
  /\ "b"%char <> " "%char
  /\ char_at (currentCharIndex s) "ab" = Some "b"%char
  /\ String.length "a" <= String.length (currentInput s)
  /\ currentWordIndex s2 = currentWordIndex s
  /\ currentCharIndex s2 = currentCharIndex s
  /\ correctChars s2 = correctChars s.
Proof.
  intros s s2.
  assert (Hr : reachable
                 (resetTest ["ab"; "cd"]%string (mount strictSettings)) s).
  { subst s. simpl. apply reach_input, reach_start. }
  split; [exact Hr|]. split; [reflexivity|]. split; [reflexivity|].
  split; [discriminate|]. split; [reflexivity|].
  split; [vm_compute; lia|].
  apply (backspace_restores ["ab"; "cd"]%string (mount strictSettings) s
           "ab" "b"%char 8 "a" 9 Hr eq_refl eq_refl eq_refl).
  - discriminate.
  - right. reflexivity.
  - vm_compute. lia.
Defined.

(** C5 fails as stated: under the strict policy on the words "ab", "cd",
    after "a" the cursor is at character 1 with the first entry marked; the
    mistyped key "x" leaves the cursor there, and the backspace that follows
    moves it to character 0 and clears the entry of the correct "a". *)
Lemma backspace_after_mistype_overshoots :
  let s := typeText (resetTest ["ab"; "cd"]%string (mount strictSettings))
             "a" 7 in
  let s1 := press s "x" 8 in
  let s2 := pressBackspace s1 9 in
  (currentWordIndex s, currentCharIndex s) = (0, 1)
  /\ correctChars s = [true; false; false; false; false]
  /\ (currentWordIndex s1, currentCharIndex s1) = (0, 1)
  /\ (currentWordIndex s2, currentCharIndex s2) = (0, 0)
  /\ correctChars s2 = [false; false; false; false; false].
Proof. vm_compute. repeat split. Qed.

(** ** A whole session: "the cat" *)

(** C1 on the code: on the words "the", "cat" under the strict policy, in
    either mode, a flawless "the cat" leaves the completed character count
    at [offset[1] + 3 = 7] and a final separator completes the session with
    the cursor at word index 2, but the correct character count is 6, not 7,
    and the accuracy [round(100 * 6 / 7) = 86], not 100.  The bitmap has an
    entry for the separator between the words ([resetTest] sizes it for the
    joined text) and the completed count includes it, but the write in
    [handleInputChange] is guarded by [currentCharIndex < currentWord.length],
    so the entry of a correctly typed separator stays [false]; the stats
    take 7 typed, 6 correct and 1 incorrect characters. *)
Theorem the_cat_session (m : TypingMode) :
  let cfg := mkSettings m medium 30 2 true strict in
  let s := typeText (resetTest ["the"; "cat"]%string (mount cfg))
             "the cat" 7 in
  let s' := press s " " 8 in
  charOffsets (words s) !! currentWordIndex s = Some 4
  /\ currentCharIndex s = 3
  /\ getCompletedCharCount s = 4 + 3
  /\ length (correctChars (resetTest ["the"; "cat"]%string (mount cfg))) = 7
  /\ correctChars s = [true; true; true; false; true; true; true]
  /\ getCorrectCharCount s = 6
  /\ getCorrectCharCount s <> 7
  /\ calculateAccuracy s = 86%Z
  /\ calculateAccuracy s <> 100%Z
  /\ currentWordIndex s' = 2
  /\ testComplete s' = true
  /\ testActive s' = false
  /\ totalChars (stats s') = 7%Z
  /\ statCorrectChars (stats s') = 6%Z
  /\ incorrectChars (stats s') = 1%Z.
Proof. destruct m; vm_compute; repeat split; discriminate. Qed.

(** ** The strict policy's error marker *)

(** C4 on the code: under the strict policy on the words "ab", "cd", a
    mistyped first key leaves the marker unset; so does the mistyped key
    after "ab", and the separator typed next moves on to the second word. *)
Theorem strict_marker_is_never_set :
  let s0 := resetTest ["ab"; "cd"]%string (mount strictSettings) in
  let s1 := press s0 "x" 7 in
  let s2 := typeText s0 "abx" 7 in
  let s3 := press s2 " " 8 in
  errorPosition s1 = None
  /\ (currentWordIndex s1, currentCharIndex s1) = (0, 0)
  /\ errorPosition s2 = None
  /\ currentInput s2 = "abx"%string
  /\ (currentWordIndex s2, currentCharIndex s2) = (0, 2)
  /\ (currentWordIndex s3, currentCharIndex s3) = (1, 0).
Proof. vm_compute. repeat split. Qed.

(** ** Aggregate stats *)

(** [Math.round] of a half-integer quotient, in integers: the mean of two
    integers, halves rounded up. *)
Lemma Math_round_half (n : Z) :
  Math_round (inject_Z n / 2)%Q = ((n + 1) / 2)%Z.
Proof.
  unfold Math_round, Qfloor, Qdiv, Qmult, Qplus, Qinv, inject_Z. simpl.
  change (Z.pos (1 * 2 * 2)) with (2 * 2)%Z.
  change (Z.pos (1 * 2)) with 2%Z.
  replace (n * 1 * 2 + 1 * 2)%Z with ((n + 1) * 2)%Z by lia.
  rewrite Z.div_mul_cancel_r by lia. reflexivity.
Qed.

Lemma Math_max_Fin (a b : Z) : Math_max (Fin a) (Fin b) = Fin (Z.max a b).
Proof.
  unfold Math_max, jsnum_ltb. destruct (Z.ltb_spec a b); f_equal; lia.
Qed.

Lemma Math_max_Infinity_r (a : jsnum) : Math_max a Infinity = Infinity.
Proof. by destruct a. Qed.

Lemma handleInputChange_completes s value now :
  testComplete s = false ->
  testComplete (handleInputChange s value now) = true ->
  stats (handleInputChange s value now) = newStats s.
Proof.
  intros Hc. revert Hc. paths; congruence.
Qed.

Lemma tick_completes c now s :
  testComplete s = false ->
  testComplete (tick c now s) = true ->
  stats (tick c now s) = newStats c.
Proof.
  intros Hc. unfold tick.
  repeat case_match; autorewrite with session; simpl; congruence.
Qed.

(** C6: every completion of a session, from the keystroke handler or from
    the timer, stores the stats record in which the best WPM is the larger
    of the stored and the session's figure, the accuracy is the mean of the
    stored and the session's accuracy rounded to the nearest integer (halves
    up), the three character counters grow by the session's counts and the
    number of completed tests by one.  From the default stats, a session of
    accuracy 80 and then one of accuracy 100 store 40 and then 70. *)
Theorem stats_merge :
  (forall s value now,
     testComplete s = false ->
     testComplete (handleInputChange s value now) = true ->
     stats (handleInputChange s value now) = newStats s)
  /\ (forall c now s,
        testComplete s = false ->
        testComplete (tick c now s) = true ->
        stats (tick c now s) = newStats c)
  /\ (forall s,
        let old := stats s in
        let new := newStats s in
        let chars := Z.of_nat (getCompletedCharCount s) in
        let correct := Z.of_nat (getCorrectCharCount s) in
        wpm new = Math_max (wpm old) (finalWpm s)
        /\ (forall a b, wpm old = Fin a -> finalWpm s = Fin b ->
            wpm new = Fin (Z.max a b))
        /\ (2 * accuracy new <= accuracy old + calculateAccuracy s + 1
            < 2 * accuracy new + 2)%Z
        /\ statCorrectChars new = (statCorrectChars old + correct)%Z
        /\ incorrectChars new = (incorrectChars old + (chars - correct))%Z
        /\ totalChars new = (totalChars old + chars)%Z
        /\ completedTests new = (completedTests old + 1)%Z)
  /\ (accuracy (stats (mount relaxedSettings)) = 0%Z
      /\ calculateAccuracy
           (typeText (resetTest ["abcde"]%string (mount relaxedSettings))
              "abcdx" 7) = 80%Z
      /\ accuracy (stats accuracy80) = 40%Z
      /\ calculateAccuracy
           (typeText (resetTest ["abcde"]%string accuracy80) "abcde" 9)
         = 100%Z
      /\ accuracy (stats accuracy100) = 70%Z
      /\ completedTests (stats accuracy100) = 2%Z).
Proof.
  split; [exact handleInputChange_completes|].
  split; [exact tick_completes|].
  split; [|vm_compute; repeat split].
  intros s. cbv zeta. unfold newStats. simpl.
  split; [done|]. split.
  - intros a b -> ->. apply Math_max_Fin.
  - split; [|done]. rewrite Math_round_half.
    pose proof (Z.div_mod (accuracy (stats s) + calculateAccuracy s + 1) 2
                  ltac:(lia)).
    pose proof (Z.mod_pos_bound
                  (accuracy (stats s) + calculateAccuracy s + 1) 2
                  ltac:(lia)).
    lia.
Qed.

Lemma stats_merge_witness :
  let s := typeText (resetTest ["abcde"]%string (mount relaxedSettings))
             "abcdx" 7 in
  testComplete s = false
  /\ testComplete (handleInputChange s "abcdx " 8) = true
  /\ stats (handleInputChange s "abcdx " 8) = newStats s.
Proof.
  intros s. split; [reflexivity|]. split; [reflexivity|].
  apply (proj1 stats_merge s "abcdx "%string 8%Z); reflexivity.
Defined.

(** ** A session without words *)

Lemma getCompletedCharCount_start s :
  currentWordIndex s = 0 -> currentCharIndex s = 0 ->
  getCompletedCharCount s = 0.
Proof. intros Hw Hc. unfold getCompletedCharCount. by rewrite Hw, Hc. Qed.

Lemma Math_round_zero q : (q == 0)%Q -> Math_round q = 0%Z.
Proof. intros H. unfold Math_round. by rewrite H. Qed.

(** With no words, a change event only starts the clock. *)
Lemma handleInputChange_no_words s value now :
  words s = [] ->
  let s' := handleInputChange s value now in
  testComplete s' = testComplete s
  /\ currentWordIndex s' = currentWordIndex s
  /\ currentCharIndex s' = currentCharIndex s
  /\ correctChars s' = correctChars s
  /\ stats s' = stats s
  /\ (testComplete s = false -> testActive s = false ->
      0 < String.length value -> testActive s' = true).
Proof.
  intros Hws. unfold handleInputChange. rewrite Hws, lookup_nil.
  repeat case_match; simpl; tests; repeat split; auto; try congruence; lia.
Qed.

Lemma tick_wordsMode c now s :
  mode (settings c) = wordsMode ->
  testComplete (tick c now s) = testComplete s.
Proof.
  intros Hm. unfold tick. rewrite Hm. simpl.
  repeat case_match; reflexivity.
Qed.

(** The cursor and the bitmap of a session without words never move. *)
Lemma reachable_no_words_cursor {allowed} base s :
  reachableUnder allowed (resetTest [] base) s ->
  currentWordIndex s = 0 /\ currentCharIndex s = 0 /\ correctChars s = [].
Proof.
  induction 1 as [|s value now Hr IH|c s now _ _ Hr IH|s p _ IH _ _].
  - by simpl.
  - pose proof (reachable_words _ _ Hr) as Hws. simpl in Hws.
    destruct (handleInputChange_no_words s value now Hws)
      as (_ & -> & -> & -> & _). exact IH.
  - by autorewrite with session.
  - exact IH.
Qed.

Lemma reachable_wordsMode_no_words {allowed} base s :
  mode (settings base) = wordsMode ->
  reachableUnder allowed (resetTest [] base) s ->
  testComplete s = false.
Proof.
  intros Hm Hr.
  induction Hr as [|s value now Hr IH|c s now Hc IHc Hr IH|s p _ IH _ _].
  - by simpl.
  - pose proof (reachable_words _ _ Hr) as Hws. simpl in Hws.
    destruct (handleInputChange_no_words s value now Hws)
      as (-> & _). exact IH.
  - rewrite tick_wordsMode; [exact IH|].
    by rewrite (reachable_mode _ _ Hc).
  - exact IH.
Qed.

(** C9, as the code has it.  A session without words never faults: in every
    state it reaches the cursor is at the start and the bitmap empty, and a
    change event changes neither them nor the stats nor the completion flag;
    all it does is start the clock.  In time mode the session completes at
    the first firing of the timer after the first input, with no characters
    counted, a WPM of 0 and the accuracy 100 of an empty session merged into
    the stats.  In word-count mode no change event and no firing of the
    timer ever completes it. *)
Theorem empty_session (base : State) :
  let s0 := resetTest [] base in
  (forall s, reachable s0 s ->
     words s = []
     /\ currentWordIndex s = 0 /\ currentCharIndex s = 0
     /\ correctChars s = []
     /\ forall value now,
          let s' := handleInputChange s value now in
          testComplete s' = testComplete s
          /\ currentWordIndex s' = 0 /\ currentCharIndex s' = 0
          /\ correctChars s' = [] /\ stats s' = stats s
          /\ (testComplete s = false -> testActive s = false ->
              0 < String.length value -> testActive s' = true))
  /\ (forall value now,
        let s1 := handleInputChange s0 value now in
        testComplete s1 = false
        /\ currentWordIndex s1 = 0 /\ currentCharIndex s1 = 0
        /\ correctChars s1 = [] /\ stats s1 = stats base
        /\ (0 < String.length value -> testActive s1 = true))
  /\ (mode (settings base) = time ->
      forall value now now',
        0 < String.length value ->
        let s1 := handleInputChange s0 value now in
        let s2 := tick s1 now' s1 in
        testComplete s2 = true
        /\ testActive s2 = false
        /\ getCompletedCharCount s1 = 0
        /\ finalWpm s1 = Fin 0
        /\ calculateAccuracy s1 = 100%Z
        /\ wpm (stats s2) = Math_max (wpm (stats base)) (Fin 0)
        /\ accuracy (stats s2) = ((accuracy (stats base) + 100 + 1) / 2)%Z
        /\ statCorrectChars (stats s2) = statCorrectChars (stats base)
        /\ incorrectChars (stats s2) = incorrectChars (stats base)
        /\ totalChars (stats s2) = totalChars (stats base)
        /\ completedTests (stats s2) = (completedTests (stats base) + 1)%Z)
  /\ (mode (settings base) = wordsMode ->
      forall s, reachable s0 s ->
        testComplete s = false
        /\ currentWordIndex s = 0 /\ currentCharIndex s = 0).
Proof.
  intros s0.
  assert (Hstep : forall value now,
            let s1 := handleInputChange s0 value now in
            testComplete s1 = false
            /\ currentWordIndex s1 = 0 /\ currentCharIndex s1 = 0
            /\ correctChars s1 = [] /\ stats s1 = stats base
            /\ (0 < String.length value -> testActive s1 = true)).
  { intros value now.
    destruct (handleInputChange_no_words s0 value now eq_refl)
      as (Hc & Hw & Hi & Hb & Hst & Hact).
    cbv zeta. rewrite Hc, Hw, Hi, Hb, Hst. repeat split. auto. }
  split; [|split; [exact Hstep|split]].
  - intros s Hr.
    pose proof (reachable_words _ _ Hr) as Hws. simpl in Hws.
    destruct (reachable_no_words_cursor _ _ Hr) as (Hw & Hi & Hb).
    split_and!; try done.
    intros value now.
    destruct (handleInputChange_no_words s value now Hws)
      as (Hc' & Hw' & Hi' & Hb' & Hst' & Hact').
    cbv zeta. rewrite Hc', Hw', Hi', Hb', Hst'. by split_and!.
  - intros Hm value now now' Hlen.
    destruct (Hstep value now) as (Hc & Hw & Hi & Hb & Hst & Hact).
    specialize (Hact Hlen). cbv zeta.
    set (s1 := handleInputChange s0 value now) in *.
    assert (Hcfg : settings s1 = settings base)
      by (subst s1; by rewrite handleInputChange_settings).
    assert (Hws : words s1 = [])
      by (subst s1; by rewrite handleInputChange_words).
    assert (Hchars : getCompletedCharCount s1 = 0)
      by (by apply getCompletedCharCount_start).
    assert (Hcorrect : getCorrectCharCount s1 = 0)
      by (unfold getCorrectCharCount; by rewrite Hb).
    assert (Hacc : calculateAccuracy s1 = 100%Z)
      by (unfold calculateAccuracy; by rewrite Hchars).
    assert (Hwpm : finalWpm s1 = Fin 0).
    { unfold finalWpm. rewrite Hchars. simpl.
      destruct (Qeq_bool (timeElapsed s1 / 60) 0); [done|].
      f_equal. apply Math_round_zero. unfold Qdiv. by rewrite !Qmult_0_l. }
    assert (Hdone : testComplete (tick s1 now' s1) = true).
    { unfold tick. rewrite Hact, Hc, Hcfg, Hm, Hws, Hw. simpl.
      repeat case_match; by rewrite ?endTest_testComplete. }
    pose proof (tick_completes s1 now' s1 Hc Hdone) as Hstats.
    split; [done|]. split.
    { unfold tick. rewrite Hact, Hc, Hcfg, Hm, Hws, Hw. simpl.
      repeat case_match; by rewrite ?endTest_testActive. }
    rewrite Hstats. unfold newStats.
    rewrite Hchars, Hcorrect, Hacc, Hwpm, Hst. simpl.
    rewrite Math_round_half.
    repeat split; try done; lia.
  - intros Hm s Hr.
    destruct (reachable_no_words_cursor _ _ Hr) as (Hw & Hi & _).
    split; [|done]. exact (reachable_wordsMode_no_words base s Hm Hr).
Qed.

Lemma empty_session_witness :
  let base := mount (mkSettings wordsMode medium 30 25 true relaxed) in
  let s := tick (handleInputChange (resetTest [] base) "a" 7) 107
             (handleInputChange (resetTest [] base) "a" 7) in
  let s' := handleInputChange s "ab" 207 in
  mode (settings base) = wordsMode
  /\ reachable (resetTest [] base) s
  /\ testComplete s = false
  /\ currentWordIndex s = 0 /\ currentCharIndex s = 0
  /\ testComplete s' = testComplete s
  /\ currentWordIndex s' = 0 /\ currentCharIndex s' = 0
  /\ correctChars s' = [] /\ stats s' = stats s.
Proof.
  intros base s s'.
  assert (Hr : reachable (resetTest [] base) s).
  { apply reach_tick; apply reach_input, reach_start. }
  destruct (empty_session base) as (Hany & _ & _ & Hwords).
  split; [reflexivity|]. split; [exact Hr|].
  destruct (Hwords eq_refl s Hr) as (Hc & Hw & Hi).
  destruct (Hany s Hr) as (_ & _ & _ & _ & Hkey).
  destruct (Hkey "ab"%string 207%Z) as (Hc' & Hw' & Hi' & Hb' & Hst' & _).
  exact (conj Hc (conj Hw (conj Hi (conj Hc' (conj Hw' (conj Hi'
           (conj Hb' Hst'))))))).
Defined.

(** C9 fails as stated: an empty session in word-count mode is still open
    after an input and a firing of the timer; in time mode it is open until
    the timer fires, and the accuracy it then reports is 100. *)
Lemma empty_session_stays_open :
  let wordsCfg := mkSettings wordsMode medium 30 25 true relaxed in
  let w1 := handleInputChange (resetTest [] (mount wordsCfg)) "a" 7 in
  let w2 := tick w1 107 w1 in
  let t0 := resetTest [] (mount relaxedSettings) in
  let t1 := handleInputChange t0 "a" 7 in
  let t2 := tick t1 107 t1 in
  (testActive w1, testComplete w1) = (true, false)
  /\ (testActive w2, testComplete w2) = (true, false)
  /\ testComplete t0 = false
  /\ testComplete t1 = false
  /\ testComplete t2 = true
  /\ calculateAccuracy t1 = 100%Z
  /\ accuracy (stats t2) = 50%Z.
Proof. vm_compute. repeat split. Qed.

(** ** Challenge results *)

Section FindIndex.
Context {A : Type} (f : A -> bool).

Lemma findIndex_Some l i :
  findIndex f l = Some i ->
  exists x, l !! i = Some x /\ f x = true
            /\ forall j y, j < i -> l !! j = Some y -> f y = false.
Proof.
  revert i. induction l as [|a l IH]; intros i H; [done|].
  simpl in H. destruct (f a) eqn:Hfa.
  - injection H as <-. exists a. repeat split; auto. intros; lia.
  - destruct (findIndex f l) as [k|] eqn:Hk; [|done].
    injection H as <-. destruct (IH k eq_refl) as (x & Hx & Hfx & Hmin).
    exists x. repeat split; auto.
    intros [|j] y Hj Hy; simpl in Hy; [by simplify_eq|].
    apply (Hmin j); [lia|done].
Qed.

Lemma findIndex_None l :
  findIndex f l = None -> forall x, x ∈ l -> f x = false.
Proof.
  induction l as [|a l IH]; intros H x Hx; [by apply elem_of_nil in Hx|].
  simpl in H. destruct (f a) eqn:Hfa; [done|].
  destruct (findIndex f l) eqn:Hk; [done|].
  apply elem_of_cons in Hx as [->|Hx]; auto.
Qed.

Lemma findIndex_is_Some l x :
  x ∈ l -> f x = true -> is_Some (findIndex f l).
Proof.
  intros Hx Hfx. destruct (findIndex f l) eqn:Hk; [by eexists|].
  rewrite (findIndex_None l Hk x Hx) in Hfx. done.
Qed.
End FindIndex.

Lemma updateParticipants_names user w acc ps :
  name <$> updateParticipants user w acc ps
  = match findIndex (fun p => String.eqb (name p) user) ps with
    | Some _ => name <$> ps
    | None => (name <$> ps) ++ [user]
    end.
Proof.
  unfold updateParticipants.
  destruct (findIndex _ ps) as [i|] eqn:Hi.
  - destruct (ps !! i) as [p|] eqn:Hp; [|done].
    destruct (jsnum_ltb (pWpm p) w); [|done].
    rewrite list_fmap_insert. simpl.
    apply list_insert_id. by rewrite list_lookup_fmap, Hp.
  - by rewrite fmap_app.
Qed.

Lemma updateParticipants_spec (user : string) (w : jsnum) (acc : Z)
    (ps : list Participant) :
  NoDup (name <$> ps) ->
  let ps' := updateParticipants user w acc ps in
  NoDup (name <$> ps')
  /\ (forall i p, ps !! i = Some p -> name p = user ->
      length ps' = length ps
      /\ ps' !! i = Some (if jsnum_ltb (pWpm p) w
                          then mkParticipant user w acc else p))
  /\ (forall i p, ps !! i = Some p -> name p <> user -> ps' !! i = Some p)
  /\ ((forall p, p ∈ ps -> name p <> user) ->
      ps' = ps ++ [mkParticipant user w acc]).
Proof.
  intros Hnd ps'.
  assert (Hfound : forall i p, ps !! i = Some p -> name p = user ->
            findIndex (fun p => String.eqb (name p) user) ps = Some i).
  { intros i p Hp Hn.
    destruct (findIndex_is_Some (fun p => String.eqb (name p) user) ps p)
      as [k Hk].
    - by eapply list_elem_of_lookup_2.
    - by apply String.eqb_eq.
    - rewrite Hk. f_equal.
      destruct (findIndex_Some _ _ _ Hk) as (q & Hq & Hfq & _).
      apply String.eqb_eq in Hfq.
      apply (NoDup_lookup _ k i user Hnd);
        rewrite list_lookup_fmap; [rewrite Hq|rewrite Hp]; simpl;
        congruence. }
  split; [|split; [|split]].
  - subst ps'. rewrite updateParticipants_names.
    destruct (findIndex _ ps) as [i|] eqn:Hi; [done|].
    apply NoDup_app. split; [done|]. split; [|apply NoDup_singleton].
    intros x Hx Hx'. apply list_elem_of_singleton in Hx' as ->.
    apply list_elem_of_fmap in Hx as (p & Hn & Hp).
    pose proof (findIndex_None _ _ Hi p Hp) as Hf. simpl in Hf.
    apply String.eqb_neq in Hf. congruence.
  - intros i p Hp Hn. subst ps'. unfold updateParticipants.
    rewrite (Hfound i p Hp Hn), Hp.
    destruct (jsnum_ltb (pWpm p) w).
    + rewrite length_insert, list_lookup_insert_eq
        by (by eapply lookup_lt_Some).
      by rewrite Hn.
    + done.
  - intros i p Hp Hn. subst ps'. unfold updateParticipants.
    destruct (findIndex _ ps) as [k|] eqn:Hk.
    + destruct (findIndex_Some _ _ _ Hk) as (q & Hq & Hfq & _).
      rewrite Hq. apply String.eqb_eq in Hfq.
      destruct (jsnum_ltb (pWpm q) w); [|done].
      rewrite list_lookup_insert_ne; [done|]. intros ->. congruence.
    + by apply lookup_app_l_Some.
  - intros Hnone. subst ps'. unfold updateParticipants.
    destruct (findIndex _ ps) as [k|] eqn:Hk; [|done].
    destruct (findIndex_Some _ _ _ Hk) as (q & Hq & Hfq & _).
    apply String.eqb_eq in Hfq.
    exfalso. apply (Hnone q); [by eapply list_elem_of_lookup_2|done].
Qed.

Lemma updateChallengeResult_lookup s challengeId w acc k :
  updateChallengeResult s challengeId w acc !! k
  = (fun challenge =>
       if String.eqb (cId challenge) challengeId then
         mkChallenge (cId challenge) (cCreatorName challenge)
           (cDifficulty challenge) (cMode challenge) (cLimit challenge)
           (expiresAt challenge)
           (Math_max (bestWpm challenge) w)
           (Z.max (bestAccuracy challenge) acc)
           (updateParticipants (userName s) w acc (participants challenge))
       else challenge) <$> challenges s !! k.
Proof. unfold updateChallengeResult. apply list_lookup_fmap. Qed.

(** C7: a challenge whose participant records have distinct names keeps
    them distinct after a result is submitted.  The record of the submitting
    name, if there is one, takes the new WPM and accuracy when the new WPM is
    strictly greater than the recorded one and is left as it is otherwise;
    every other record is left as it is; a name without a record gets one
    appended.  Submitting 40 and then 35 under one name keeps 40. *)
Theorem challenge_result_update (s : State) (challengeId : string)
    (w : jsnum) (acc : Z) (k : nat) (c : Challenge) :
  challenges s !! k = Some c ->
  cId c = challengeId ->
  NoDup (name <$> participants c) ->
  exists c',
    updateChallengeResult s challengeId w acc !! k = Some c'
    /\ let user := userName s in
       let ps := participants c in
       let ps' := participants c' in
       NoDup (name <$> ps')
       /\ (forall i p, ps !! i = Some p -> name p = user ->
           length ps' = length ps
           /\ ps' !! i = Some (if jsnum_ltb (pWpm p) w
                               then mkParticipant user w acc else p))
       /\ (forall i p, ps !! i = Some p -> name p <> user ->
           ps' !! i = Some p)
       /\ ((forall p, p ∈ ps -> name p <> user) ->
           ps' = ps ++ [mkParticipant user w acc])
       /\ (let s0 := createChallenge
                       (setUserName "ann" (mount relaxedSettings))
                       1000 "1000" ["ab"%string] in
           let s1 := submitResult "1000" (Fin 40) 90 s0 in
           let s2 := submitResult "1000" (Fin 35) 95 s1 in
           participants <$> challenges s2
           = [[mkParticipant "ann" (Fin 40) 90]]).
Proof.
  intros Hk Hid Hnd.
  rewrite updateChallengeResult_lookup, Hk. simpl.
  apply String.eqb_eq in Hid. rewrite Hid.
  eexists. split; [reflexivity|]. cbv zeta. simpl participants.
  destruct (updateParticipants_spec (userName s) w acc (participants c) Hnd)
    as (H1 & H2 & H3 & H4).
  split; [exact H1|]. split; [exact H2|]. split; [exact H3|].
  split; [exact H4|]. vm_compute. reflexivity.
Qed.

Lemma challenge_result_update_witness :
  let s1 := submitResult "1000" (Fin 40) 90
              (createChallenge (setUserName "ann" (mount relaxedSettings))
                 1000 "1000" ["ab"%string]) in
  challenges s1 !! 0 = Some annChallenge
  /\ cId annChallenge = "1000"%string
  /\ NoDup (name <$> participants annChallenge)
  /\ exists c',
       updateChallengeResult s1 "1000" (Fin 35) 95 !! 0 = Some c'
       /\ NoDup (name <$> participants c').
Proof.
  intros s1.
  assert (Hk : challenges s1 !! 0 = Some annChallenge)
    by (vm_compute; reflexivity).
  assert (Hnd : NoDup (name <$> participants annChallenge)).
  { apply (bool_decide_unpack _). vm_compute. exact I. }
  split; [exact Hk|]. split; [reflexivity|]. split; [exact Hnd|].
  destruct (challenge_result_update s1 "1000" (Fin 35) 95 0 annChallenge
              Hk eq_refl Hnd) as (c' & Hc' & Hnd' & _).
  exists c'. split; [exact Hc'|exact Hnd'].
Defined.

(** * Further properties of the session engine *)

(** ** The error marker *)

(** X1: no state a session reaches has an error position: the handler never
    stores one, under either policy. *)
Theorem error_marker_stays_unset (ws : list string) (base s : State) :
  reachable (resetTest ws base) s -> errorPosition s = None.
Proof.
  intros Hr.
  by apply (reachable_errorPosition (resetTest ws base) s eq_refl Hr).
Qed.

Lemma error_marker_stays_unset_witness :
  errorPosition
    (typeText (resetTest ["ab"; "cd"]%string (mount strictSettings)) "xbx " 7)
  = None.
Proof.
  apply (error_marker_stays_unset ["ab"; "cd"]%string (mount strictSettings)).
  simpl. do 4 apply reach_input. apply reach_start.
Defined.

(** ** What the bitmap holds *)

Lemma hasBeenTyped_spec j i s :
  hasBeenTyped j i s = true
  <-> j < currentWordIndex s
      \/ (j = currentWordIndex s /\ i < currentCharIndex s).
Proof.
  unfold hasBeenTyped.
  rewrite orb_true_iff, andb_true_iff, !Nat.ltb_lt, Nat.eqb_eq. tauto.
Qed.

(** X2: in every state a session reaches the bitmap has one entry per
    character of the space-joined text, and every entry marked correct is a
    character that [WordDisplay] counts as typed and paints emerald: no
    separator and no position at or after the cursor is ever marked. *)
Theorem marked_entries_are_typed (ws : list string) (base s : State) :
  reachable (resetTest ws base) s ->
  length (correctChars s) = String.length (join_space ws)
  /\ forall p, correctChars s !! p = Some true ->
       exists j w i off,
         ws !! j = Some w /\ i < String.length w
         /\ charOffsets ws !! j = Some off /\ p = off + i
         /\ hasBeenTyped j i s = true
         /\ charColour s j i = emerald.
Proof.
  intros Hr.
  pose proof (reachable_words _ _ Hr) as Hws. simpl in Hws.
  destruct (reachable_bitmapOK _ _ (resetTest_bitmapOK ws base) Hr)
    as [Hsize Hclean].
  rewrite Hws in Hsize. split; [done|].
  intros p Hp.
  destruct (Hclean p Hp) as (j & c & w & Hw & Hc & -> & Hbefore).
  rewrite Hws in Hw.
  exists j, w, c, (offsetOf ws j).
  assert (Htyped : hasBeenTyped j c s = true) by (by apply hasBeenTyped_spec).
  repeat split; try done.
  - by eapply charOffsets_word.
  - by rewrite Hws.
  - unfold charColour, marked.
    rewrite Hws, (charOffsets_word _ _ _ Hw), Htyped.
    rewrite Hws in Hp. by rewrite Hp.
Qed.

Lemma marked_entries_are_typed_witness :
  let s := typeText (resetTest ["ab"; "cd"]%string (mount relaxedSettings))
             "ab c" 7 in
  length (correctChars s) = 5
  /\ exists j w i off,
       ["ab"; "cd"]%string !! j = Some w /\ i < String.length w
       /\ charOffsets ["ab"; "cd"]%string !! j = Some off /\ 3 = off + i
       /\ hasBeenTyped j i s = true
       /\ charColour s j i = emerald.
Proof.
  intros s.
  assert (Hr : reachable
                 (resetTest ["ab"; "cd"]%string (mount relaxedSettings)) s).
  { subst s. simpl. do 4 apply reach_input. apply reach_start. }
  destruct (marked_entries_are_typed _ _ _ Hr) as [Hlen Hmarked].
  split; [exact Hlen|]. apply Hmarked. reflexivity.
Defined.

(** ** The completed and the correct character counts *)

(** X3: the completed character count is the start of the current word plus
    the character index whenever the cursor is on a row of the offset table,
    the origin included, and 0 once the cursor has left the table. *)
Theorem completed_count_closed_form (s : State) :
  (currentWordIndex s < length (words s) `max` 1 ->
   getCompletedCharCount s
   = offsetOf (words s) (currentWordIndex s) + currentCharIndex s)
  /\ (length (words s) `max` 1 <= currentWordIndex s ->
      getCompletedCharCount s = 0
      /\ calculateAccuracy s = 100%Z /\ calculateCurrentAccuracy s = 100%Z).
Proof.
  unfold calculateAccuracy, calculateCurrentAccuracy, getCompletedCharCount.
  rewrite length_charOffsets. split.
  - intros Hin. rewrite (charOffsets_lookup _ _ Hin).
    destruct (Nat.eqb_spec (currentWordIndex s) 0) as [Hw|Hw];
      destruct (Nat.eqb_spec (currentCharIndex s) 0) as [Hc|Hc]; simpl;
      try (rewrite Hw, Hc, offsetOf_0; reflexivity).
    all: destruct (Nat.eqb_spec (length (words s) `max` 1) 0); [lia|];
      simpl; destruct (Nat.leb_spec (length (words s) `max` 1)
                         (currentWordIndex s)); [lia|done].
  - intros Hout.
    assert (getCount :
              (if (currentWordIndex s =? 0) && (currentCharIndex s =? 0)
               then 0
               else if (length (words s) `max` 1 =? 0)
                       || (length (words s) `max` 1 <=? currentWordIndex s)
                    then 0
                    else match charOffsets (words s) !! currentWordIndex s with
                         | Some off => off + currentCharIndex s
                         | None => 0
                         end) = 0).
    { destruct ((currentWordIndex s =? 0) && (currentCharIndex s =? 0));
        [done|].
      apply Nat.leb_le in Hout. rewrite Hout. by rewrite orb_true_r. }
    by rewrite getCount.
Qed.

Lemma count_true_bound (l : list bool) n :
  (forall p, l !! p = Some true -> p < n) ->
  length (List.filter (fun b : bool => b) l) <= n.
Proof.
  revert n. induction l as [|b l IH]; intros n H; simpl; [lia|].
  destruct b; simpl.
  - pose proof (H 0 eq_refl). destruct n as [|n]; [lia|].
    apply le_n_S, IH. intros p Hp. specialize (H (S p) Hp). lia.
  - etransitivity; [apply (IH (n - 1))|lia].
    intros p Hp. specialize (H (S p) Hp). lia.
Qed.

Lemma Math_round_percent (c t : nat) :
  0 < t -> c <= t ->
  (0 <= Math_round (inject_Z (Z.of_nat c) / inject_Z (Z.of_nat t) * 100)%Q
   <= 100)%Z.
Proof.
  intros Ht Hc. unfold Math_round.
  set (q := (inject_Z (Z.of_nat c) / inject_Z (Z.of_nat t) * 100)%Q).
  assert (Hq0 : (0 <= q)%Q).
  { subst q. apply Qmult_le_0_compat; [|done].
    apply Qle_shift_div_l.
    - change 0%Q with (inject_Z 0). rewrite <- Zlt_Qlt. lia.
    - rewrite Qmult_0_l. change 0%Q with (inject_Z 0).
      rewrite <- Zle_Qle. lia. }
  assert (Hq1 : (q <= 100)%Q).
  { subst q. apply Qle_trans with (1 * 100)%Q; [|by compute].
    apply Qmult_le_compat_r; [|done].
    apply Qle_shift_div_r.
    - change 0%Q with (inject_Z 0). rewrite <- Zlt_Qlt. lia.
    - rewrite Qmult_1_l. rewrite <- Zle_Qle. lia. }
  split.
  - change 0%Z with (Qfloor (1 # 2)).
    apply Qfloor_resp_le.
    apply Qle_trans with (0 + (1 # 2))%Q; [by compute|].
    by apply Qplus_le_compat; [|apply Qle_refl].
  - change 100%Z with (Qfloor (100 + (1 # 2))).
    apply Qfloor_resp_le.
    by apply Qplus_le_compat; [|apply Qle_refl].
Qed.

(** X4: in every state a session reaches, the characters counted correct
    are at most the characters counted completed while the cursor is on a
    word, and the accuracy is a percentage: between 0 and 100, and 100 when
    nothing is completed. *)
Theorem accuracy_is_a_percentage (ws : list string) (base s : State) :
  reachable (resetTest ws base) s ->
  (forall w, ws !! currentWordIndex s = Some w ->
     getCorrectCharCount s <= getCompletedCharCount s)
  /\ (0 <= calculateAccuracy s <= 100)%Z
  /\ (getCompletedCharCount s = 0 -> calculateAccuracy s = 100%Z)
  /\ calculateCurrentAccuracy s = calculateAccuracy s.
Proof.
  intros Hr.
  pose proof (reachable_words _ _ Hr) as Hws. simpl in Hws.
  pose proof (reachable_bitmapOK _ _ (resetTest_bitmapOK ws base) Hr)
    as [Hsize Hclean].
  assert (Hle : forall w, ws !! currentWordIndex s = Some w ->
                  getCorrectCharCount s <= getCompletedCharCount s).
  { intros w Hw. rewrite <- Hws in Hw.
    destruct (completed_count_closed_form s) as [-> _].
    - apply count_true_bound. intros p Hp.
      pose proof (committed_before _ _ (Hclean _ Hp) _ Hw). lia.
    - apply lookup_lt_Some in Hw. lia. }
  split; [exact Hle|]. split; [|split; [|reflexivity]].
  - unfold calculateAccuracy.
    destruct (Nat.eqb_spec (getCompletedCharCount s) 0) as [|Hne]; [lia|].
    apply Math_round_percent; [lia|].
    destruct (ws !! currentWordIndex s) as [w|] eqn:Hw; [by eapply Hle|].
    exfalso. apply Hne.
    destruct (decide (length (words s) `max` 1 <= currentWordIndex s))
      as [Hout|Hin].
    + by destruct (completed_count_closed_form s) as [_ [-> _]].
    + apply lookup_ge_None_1 in Hw. rewrite Hws in Hin.
      assert (Hnil : ws = []) by (destruct ws; [done|simpl in *; lia]).
      rewrite Hnil in Hr.
      destruct (reachable_no_words_cursor _ _ Hr) as (Hw0 & Hc0 & _).
      by apply getCompletedCharCount_start.
  - unfold calculateAccuracy. by intros ->.
Qed.

Lemma accuracy_is_a_percentage_witness :
  let s := typeText (resetTest ["ab"; "cd"]%string (mount relaxedSettings))
             "ax c" 7 in
  (forall w, ["ab"; "cd"]%string !! currentWordIndex s = Some w ->
     getCorrectCharCount s <= getCompletedCharCount s)
  /\ (0 <= calculateAccuracy s <= 100)%Z
  /\ (getCompletedCharCount s = 0 -> calculateAccuracy s = 100%Z)
  /\ calculateCurrentAccuracy s = calculateAccuracy s.
Proof.
  intros s.
  apply (accuracy_is_a_percentage ["ab"; "cd"]%string
           (mount relaxedSettings) s).
  subst s. simpl. do 4 apply reach_input. apply reach_start.
Defined.

(** ** The final WPM *)

Lemma Math_round_nonneg q : (0 <= q)%Q -> (0 <= Math_round q)%Z.
Proof.
  intros Hq. unfold Math_round.
  change 0%Z with (Qfloor (1 # 2)). apply Qfloor_resp_le.
  apply Qle_trans with (0 + (1 # 2))%Q; [by compute|].
  by apply Qplus_le_compat; [|apply Qle_refl].
Qed.

(** X5: the WPM [endTest] computes is 0 when no character is completed,
    whatever the elapsed time; it is [Infinity] when characters are
    completed and no time has elapsed (the session ended before the first
    firing of the timer); with a positive elapsed time it is a non-negative
    integer. *)
Theorem final_wpm_cases (s : State) :
  (getCompletedCharCount s = 0 -> finalWpm s = Fin 0)
  /\ ((timeElapsed s == 0)%Q -> 0 < getCompletedCharCount s ->
      finalWpm s = Infinity)
  /\ ((0 < timeElapsed s)%Q ->
      exists z, finalWpm s = Fin z /\ (0 <= z)%Z).
Proof.
  unfold finalWpm. split; [|split].
  - intros ->. simpl.
    destruct (Qeq_bool (timeElapsed s / 60) 0); [done|].
    f_equal. apply Math_round_zero. unfold Qdiv. by rewrite !Qmult_0_l.
  - intros H0 Hpos.
    assert (Hm : Qeq_bool (timeElapsed s / 60) 0 = true).
    { apply Qeq_bool_iff. rewrite H0. reflexivity. }
    rewrite Hm. destruct (Nat.eqb_spec (getCompletedCharCount s) 0); [lia|done].
  - intros Hpos.
    assert (Hmin : (0 < timeElapsed s / 60)%Q).
    { apply Qlt_shift_div_l; [done|]. by rewrite Qmult_0_l. }
    assert (Hm : Qeq_bool (timeElapsed s / 60) 0 = false).
    { apply not_true_is_false. intros H. apply Qeq_bool_iff in H.
      rewrite H in Hmin. by apply Qlt_irrefl in Hmin. }
    rewrite Hm. eexists. split; [reflexivity|].
    apply Math_round_nonneg.
    apply Qle_shift_div_l; [done|]. rewrite Qmult_0_l.
    apply Qle_shift_div_l; [done|]. rewrite Qmult_0_l.
    change 0%Q with (inject_Z 0). rewrite <- Zle_Qle. lia.
Qed.

Lemma final_wpm_cases_witness :
  let s := typeText (resetTest ["ab"]%string (mount relaxedSettings)) "ab" 7 in
  (timeElapsed s == 0)%Q /\ 0 < getCompletedCharCount s
  /\ finalWpm s = Infinity
  /\ wpm (stats (press s " " 8)) = Infinity.
Proof.
  intros s.
  assert (H0 : (timeElapsed s == 0)%Q) by reflexivity.
  assert (Hpos : 0 < getCompletedCharCount s) by (vm_compute; lia).
  split; [exact H0|]. split; [exact Hpos|].
  split; [exact (proj1 (proj2 (final_wpm_cases s)) H0 Hpos)|].
  reflexivity.
Defined.

(** ** The separator *)

(** X6: a typed separator on an unfinished session moves the cursor to the
    start of the next word, with an empty buffer, exactly when the policy is
    relaxed, or the policy is strict, the character index is the length of
    the current word and no error position is set.  Otherwise the word index
    stays, and the character index moves only if the separator is the
    character the word expects there. *)
Theorem separator_advance (s : State) (w value : string) (now : Z) :
  testComplete s = false ->
  words s !! currentWordIndex s = Some w ->
  truthy w = true ->
  String.length (currentInput s) < String.length value ->
  last_char value = Some " "%char ->
  let s' := handleInputChange s value now in
  let advances :=
    accuracyMode (settings s) = relaxed
    \/ (currentCharIndex s = String.length w /\ errorPosition s = None) in
  (advances ->
     currentWordIndex s' = currentWordIndex s + 1
     /\ currentCharIndex s' = 0
     /\ currentInput s' = EmptyString
     /\ errorPosition s' = None)
  /\ (~ advances ->
      currentWordIndex s' = currentWordIndex s
      /\ currentInput s' = value
      /\ testComplete s' = false
      /\ currentCharIndex s'
         = if bool_decide (char_at (currentCharIndex s) w = Some " "%char)
           then currentCharIndex s + 1 else currentCharIndex s).
Proof.
  intros Hc Hw Ht Hlen Hlast s' advances. subst s' advances.
  rewrite (handleInputChange_typed s w value now Hc Hw Ht Hlen).
  unfold typeCharacter. rewrite Hlast.
  destruct (accuracyMode (settings s)) eqn:Hmode; simpl.
  - split.
    + intros [?|[Hci He]]; [done|]. rewrite He.
      apply Nat.eqb_eq in Hci. rewrite Hci. simpl.
      repeat case_match; autorewrite with session; simpl; done.
    + intros Hno.
      destruct (errorPosition s) as [e|] eqn:He; simpl.
      * repeat case_match; autorewrite with session; simpl; tests;
          repeat split; try done; congruence.
      * destruct (Nat.eqb_spec (currentCharIndex s) (String.length w))
          as [Heq|Hne]; [exfalso; apply Hno; by right|]. simpl.
        repeat case_match; autorewrite with session; simpl; tests;
          repeat split; try done; congruence.
  - split.
    + intros _. rewrite orb_true_r.
      repeat case_match; autorewrite with session; simpl; done.
    + intros Hno. exfalso. apply Hno. by left.
Qed.

Lemma separator_advance_witness :
  let s := typeText (resetTest ["ab"; "cd"]%string (mount strictSettings))
             "a" 7 in
  let s' := handleInputChange s "a " 8 in
  testComplete s = false
  /\ words s !! currentWordIndex s = Some "ab"%string
  /\ String.length (currentInput s) < String.length "a "
  /\ currentWordIndex s' = currentWordIndex s
  /\ currentInput s' = "a "%string
  /\ testComplete s' = false
  /\ currentCharIndex s' = 1.
Proof.
  intros s s'.
  split; [reflexivity|]. split; [reflexivity|]. split; [vm_compute; lia|].
  refine (proj2 (separator_advance s "ab" "a " 8 eq_refl eq_refl eq_refl
                   _ eq_refl) _).
  - vm_compute. lia.
  - intros [H|[H _]]; vm_compute in H; discriminate.
Defined.

(** ** When a session completes *)

(** X7: a change event completes an unfinished session exactly when it is a
    separator that advances the cursor (X6) onto or past the end of the word
    list, or, in word-count mode, onto or past the configured word count. *)
Theorem handler_completes_iff (s : State) (value : string) (now : Z) :
  testComplete s = false ->
  testComplete (handleInputChange s value now) = true
  <-> exists w,
        words s !! currentWordIndex s = Some w /\ truthy w = true
        /\ String.length (currentInput s) < String.length value
        /\ last_char value = Some " "%char
        /\ (accuracyMode (settings s) = relaxed
            \/ (currentCharIndex s = String.length w
                /\ errorPosition s = None))
        /\ (length (words s) <= currentWordIndex s + 1
            \/ (mode (settings s) = wordsMode
                /\ wordCount (settings s) <= currentWordIndex s + 1)).
Proof.
  intros Hc. split.
  - revert Hc. unfold handleInputChange, typeCharacter, backspace.
    destruct (words s !! currentWordIndex s) as [w|] eqn:Hw;
      [|by repeat case_match; simpl; congruence].
    intros Hc Hdone. exists w. revert Hdone.
    repeat case_match; autorewrite with session; simpl; tests;
      try congruence; intros _; split_and!; try done; try lia.
    all: match goal with
         | H : accuracyMode ?x = relaxed |- accuracyMode ?x = relaxed \/ _ =>
             by left
         | H : accuracyMode ?x <> strict |- accuracyMode ?x = relaxed \/ _ =>
             left; destruct (accuracyMode x); congruence
         | H : ~ (errorPosition ?x <> None) |- _ = relaxed \/ _ =>
             right; split; [lia|];
             destruct (errorPosition x); [exfalso; apply H|]; done
         | |- length _ <= _ \/ _ =>
             first [ left; lia
                   | right; split; [by apply TypingMode_eqb_eq|lia] ]
         end.
  - intros (w & Hw & Ht & Hlen & Hlast & Hadv & Hend).
    rewrite (handleInputChange_typed s w value now Hc Hw Ht Hlen).
    unfold typeCharacter. rewrite Hlast.
    assert (Hgo : (AccuracyMode_eqb (accuracyMode (settings s)) strict
                   && bool_decide (errorPosition s <> None)) = false
                  /\ ((currentCharIndex s =? String.length w)
                      || AccuracyMode_eqb (accuracyMode (settings s)) relaxed)
                     = true).
    { destruct Hadv as [->|[Hci He]]; [by rewrite orb_true_r|].
      rewrite He, Hci, Nat.eqb_refl.
      by destruct (accuracyMode (settings s)). }
    destruct Hgo as [Hgo1 Hgo2].
    assert (Hend' : (length (words s) <=? currentWordIndex s + 1) = true
                    \/ ((length (words s) <=? currentWordIndex s + 1) = false
                        /\ (TypingMode_eqb (mode (settings s)) wordsMode
                            && (wordCount (settings s)
                                <=? currentWordIndex s + 1)) = true)).
    { destruct (Nat.leb_spec (length (words s)) (currentWordIndex s + 1));
        [by left|right]. split; [done|].
      destruct Hend as [?|[-> Hn]]; [lia|].
      apply Nat.leb_le in Hn. by rewrite Hn. }
    simpl. rewrite Hgo1, Hgo2.
    destruct Hend' as [->|[-> ->]]; by rewrite endTest_testComplete.
Qed.

Lemma handler_completes_iff_witness :
  let s := typeText (resetTest ["ab"]%string (mount relaxedSettings)) "ax" 7 in
  testComplete s = false
  /\ testComplete (handleInputChange s "ax " 8) = true.
Proof.
  intros s. split; [reflexivity|].
  apply (handler_completes_iff s "ax " 8 eq_refl).
  exists "ab"%string.
  split; [reflexivity|]. split; [reflexivity|]. split; [vm_compute; lia|].
  split; [reflexivity|]. split; [left; reflexivity|].
  left. vm_compute. lia.
Defined.

(** ** The timer *)

Lemma time_limit_reached (limit elapsedMs : Z) :
  Qle_bool (inject_Z limit) (inject_Z elapsedMs / 1000) = true
  <-> (1000 * limit <= elapsedMs)%Z.
Proof.
  rewrite Qle_bool_iff.
  unfold Qle, Qdiv, Qmult, Qinv, inject_Z. simpl. lia.
Qed.

Lemma handleInputChange_incomplete s value now :
  testComplete (handleInputChange s value now) = false ->
  testComplete s = false
  /\ stats (handleInputChange s value now) = stats s
  /\ challenges (handleInputChange s value now) = challenges s
  /\ rooms (handleInputChange s value now) = rooms s
  /\ userName (handleInputChange s value now) = userName s.
Proof.
  unfold handleInputChange, typeCharacter, backspace.
  repeat case_match; autorewrite with session; simpl;
    intros; split_and!; try done; congruence.
Qed.

Lemma tick_incomplete c now s :
  testComplete (tick c now s) = false ->
  testComplete s = false
  /\ stats (tick c now s) = stats s
  /\ challenges (tick c now s) = challenges s
  /\ rooms (tick c now s) = rooms s.
Proof.
  unfold tick.
  repeat case_match; autorewrite with session; simpl;
    intros; split_and!; try done; congruence.
Qed.

Lemma tick_timeElapsed c now s :
  testActive c = true -> testComplete c = false ->
  timeElapsed (tick c now s) = (inject_Z (now - startTime c) / 1000)%Q.
Proof.
  intros Ha Hc. unfold tick. rewrite Ha, Hc. simpl.
  repeat case_match; autorewrite with session; reflexivity.
Qed.

Lemma tick_testComplete c now s :
  testActive c = true -> testComplete c = false ->
  testComplete (tick c now s)
  = testComplete s
    || (TypingMode_eqb (mode (settings c)) time
        && (Qle_bool (inject_Z (timeLimit (settings c)))
              (inject_Z (now - startTime c) / 1000)
            || (length (words c) <=? currentWordIndex c))).
Proof.
  intros Ha Hc. unfold tick. rewrite Ha, Hc. simpl.
  destruct (TypingMode_eqb (mode (settings c)) time); simpl;
    destruct (Qle_bool _ _); simpl;
    destruct (length (words c) <=? currentWordIndex c); simpl;
    repeat case_match; autorewrite with session; simpl;
    rewrite ?orb_true_r, ?orb_false_r; reflexivity.
Qed.

(** X8: a firing of the timer of an active render completes an unfinished
    session exactly in time mode, when the time limit has elapsed since the
    start or the cursor of that render is past the last word.  It always
    stores the elapsed time, never touches the cursor or the bitmap, and
    leaves the stats and the registries alone unless it completes the
    session.  The timer of a render that is not active does nothing. *)
Theorem timer_completes_iff (c s : State) (now : Z) :
  (testActive c = true -> testComplete c = false ->
   testComplete s = false ->
   (testComplete (tick c now s) = true
    <-> mode (settings c) = time
        /\ ((1000 * timeLimit (settings c) <= now - startTime c)%Z
            \/ length (words c) <= currentWordIndex c))
   /\ (timeElapsed (tick c now s) == inject_Z (now - startTime c) / 1000)%Q
   /\ currentWordIndex (tick c now s) = currentWordIndex s
   /\ currentCharIndex (tick c now s) = currentCharIndex s
   /\ correctChars (tick c now s) = correctChars s
   /\ (testComplete (tick c now s) = false ->
       stats (tick c now s) = stats s
       /\ challenges (tick c now s) = challenges s
       /\ rooms (tick c now s) = rooms s))
  /\ (testActive c = false \/ testComplete c = true -> tick c now s = s).
Proof.
  split.
  - intros Ha Hc Hs.
    split; [|split; [by rewrite tick_timeElapsed|]].
    + rewrite (tick_testComplete c now s Ha Hc), Hs. simpl.
      rewrite andb_true_iff, orb_true_iff, TypingMode_eqb_eq,
        time_limit_reached, Nat.leb_le. tauto.
    + autorewrite with session. split_and!; try done.
      intros Hopen. by destruct (tick_incomplete c now s Hopen) as (_ & ?).
  - intros [Ha|Hc]; unfold tick; [by rewrite Ha|rewrite Hc].
    by rewrite andb_false_r.
Qed.

Lemma timer_completes_iff_witness :
  let c := typeText (resetTest ["ab"; "cd"]%string (mount relaxedSettings))
             "a" 1000 in
  testActive c = true /\ testComplete c = false
  /\ mode (settings c) = time
  /\ (1000 * timeLimit (settings c) <= 31000 - startTime c)%Z
  /\ testComplete (tick c 31000 c) = true.
Proof.
  intros c.
  split; [reflexivity|]. split; [reflexivity|]. split; [reflexivity|].
  split; [vm_compute; discriminate|].
  apply (proj1 (proj1 (timer_completes_iff c c 31000)
                  eq_refl eq_refl eq_refl)).
  split; [reflexivity|]. left. vm_compute. discriminate.
Defined.

(** ** Stats change at completion only *)

(** X9: while a session has not completed, no change event, no firing of
    the timer and no change of the settings has touched the stats, the
    challenges, the rooms or the user name: they are those the session
    started with. *)
Theorem registries_untouched_before_completion (ws : list string)
    (base s : State) :
  reachable (resetTest ws base) s ->
  testComplete s = false ->
  stats s = stats base
  /\ challenges s = challenges base
  /\ rooms s = rooms base
  /\ userName s = userName base.
Proof.
  induction 1 as [|s value now Hr IH|c s now _ _ Hr IH|s p _ IH _ _];
    intros Hc.
  - by simpl.
  - destruct (handleInputChange_incomplete s value now Hc)
      as (Hs & -> & -> & -> & ->). by apply IH.
  - destruct (tick_incomplete c now s Hc) as (Hs & -> & -> & ->).
    rewrite tick_userName. by apply IH.
  - by apply IH.
Qed.

Lemma registries_untouched_before_completion_witness :
  let s := typeText (resetTest ["ab"; "cd"]%string accuracy80) "ax " 7 in
  testComplete s = false
  /\ stats s = stats accuracy80
  /\ challenges s = challenges accuracy80
  /\ rooms s = rooms accuracy80
  /\ userName s = userName accuracy80.
Proof.
  intros s. split; [reflexivity|].
  apply (registries_untouched_before_completion ["ab"; "cd"]%string
           accuracy80 s); [|reflexivity].
  subst s. simpl. do 3 apply reach_input. apply reach_start.
Defined.

(** ** Typing key by key under the relaxed policy *)

Lemma length_substring_prefix n w :
  n <= String.length w -> String.length (substring 0 n w) = n.
Proof.
  revert n. induction w as [|a w IH]; intros [|n] H; simpl in *;
    try done; try lia.
  rewrite IH; lia.
Qed.

Lemma keyed_reachable {allowed} s0 s :
  keyed allowed s0 s -> reachableUnder allowed s0 s.
Proof.
  induction 1;
    [apply reach_start| | |by apply reach_tick|by apply reach_settings];
    unfold press, pressBackspace; by apply reach_input.
Qed.

Lemma handleInputChange_same_length s value now :
  String.length value = 0 -> currentInput s = EmptyString ->
  handleInputChange s value now = s.
Proof.
  intros Hv Hi. unfold handleInputChange. rewrite Hi, Hv. simpl.
  rewrite andb_false_r. by repeat case_match.
Qed.

(** X10: in a session whose policy is relaxed from its reset on (the other
    settings may change on the way), in every state reached key by key the
    rendered buffer is as long as the character index.  So with the
    character index at 0 the buffer is empty and a backspace changes
    nothing: after a separator has moved the cursor on, the branch that
    returns to the previous word cannot be reached by typing.  (Under the
    strict policy a mistyped key grows the buffer and leaves the cursor, and
    the branch is reached: [strict_buffer_outruns_cursor].) *)
Theorem relaxed_buffer_tracks_cursor (ws : list string) (base s : State) :
  accuracyMode (settings base) = relaxed ->
  keyed (under relaxed) (resetTest ws base) s ->
  accuracyMode (settings s) = relaxed
  /\ String.length (currentInput s) = currentCharIndex s
  /\ (currentCharIndex s = 0 -> forall now, pressBackspace s now = s).
Proof.
  intros Hrel Hk.
  assert (Hpol : forall t, keyed (under relaxed) (resetTest ws base) t ->
                           accuracyMode (settings t) = relaxed).
  { intros t Ht.
    exact (reachable_allowed (allowed := under relaxed)
             (resetTest ws base) t Hrel (keyed_reachable _ _ Ht)). }
  assert (Hlen : String.length (currentInput s) = currentCharIndex s).
  { induction Hk as [|s ch now Hk IH|s now Hk IH|c s now _ _ Hk IH
                    |s p Hk IH _ _].
    - reflexivity.
    - pose proof (Hpol _ Hk) as Hs.
      unfold press.
      assert (Hv : String.length
                     (String.append (currentInput s) (String ch EmptyString))
                   = String.length (currentInput s) + 1)
        by (rewrite length_append; simpl; lia).
      revert Hv.
      generalize (String.append (currentInput s) (String ch EmptyString)).
      intros value Hv.
      unfold handleInputChange, typeCharacter, backspace. rewrite Hs.
      repeat case_match; autorewrite with session; simpl; tests;
        try done; lia.
    - unfold pressBackspace.
      assert (Hv : String.length
                     (substring 0 (String.length (currentInput s) - 1)
                        (currentInput s))
                   = String.length (currentInput s) - 1)
        by (apply length_substring_prefix; lia).
      revert Hv.
      generalize (substring 0 (String.length (currentInput s) - 1)
                    (currentInput s)).
      intros value Hv.
      unfold handleInputChange, typeCharacter, backspace.
      repeat case_match; autorewrite with session; simpl; tests;
        try done; lia.
    - by autorewrite with session.
    - exact IH. }
  split; [by apply Hpol|]. split; [exact Hlen|].
  intros Hzero now. unfold pressBackspace.
  assert (Hempty : currentInput s = EmptyString)
    by (destruct (currentInput s); [done|simpl in Hlen; lia]).
  apply handleInputChange_same_length; [|done].
  by rewrite Hempty.
Qed.

Lemma relaxed_buffer_tracks_cursor_witness :
  let s0 := resetTest ["ab"; "cd"]%string (mount relaxedSettings) in
  let mute := mkPatch None None None None (Some false) None in
  let s := press (updateSettings (typeText s0 "ab" 7) mute) " " 8 in
  accuracyMode (settings (mount relaxedSettings)) = relaxed
  /\ (currentWordIndex s, currentCharIndex s) = (1, 0)
  /\ soundEnabled (settings s) = false
  /\ String.length (currentInput s) = currentCharIndex s
  /\ pressBackspace s 9 = s.
Proof.
  intros s0 mute s. split; [reflexivity|]. split; [reflexivity|].
  split; [reflexivity|].
  assert (Hk : keyed (under relaxed) s0 s).
  { subst s s0. simpl. apply keyed_press, keyed_settings.
    - do 2 apply keyed_press. apply keyed_start.
    - by vm_compute.
    - reflexivity. }
  destruct (relaxed_buffer_tracks_cursor ["ab"; "cd"]%string
              (mount relaxedSettings) s eq_refl Hk) as (_ & Hlen & Hback).
  split; [exact Hlen|]. apply Hback. reflexivity.
Defined.

(** Under the strict policy the buffer outruns the cursor: on the words
    "ab", "cd", after "ab", a separator and a mistyped "x" the buffer holds
    one character at character index 0, and a backspace returns to the end
    of the previous word, also after a switch to the relaxed policy. *)
Lemma strict_buffer_outruns_cursor :
  let s := typeText (resetTest ["ab"; "cd"]%string (mount strictSettings))
             "ab x" 7 in
  let r := updateSettings s (switchPolicy relaxed) in
  (currentWordIndex s, currentCharIndex s, currentInput s)
  = (1, 0, "x"%string)
  /\ (currentWordIndex (pressBackspace s 8),
      currentCharIndex (pressBackspace s 8),
      currentInput (pressBackspace s 8)) = (0, 2, "ab"%string)
  /\ accuracyMode (settings r) = relaxed
  /\ (currentWordIndex (pressBackspace r 8),
      currentCharIndex (pressBackspace r 8),
      currentInput (pressBackspace r 8)) = (0, 2, "ab"%string).
Proof. by vm_compute. Qed.

(** * The registries *)

Lemma jsnum_le_refl a : jsnum_le a a.
Proof. unfold jsnum_le. destruct a; simpl; [apply Z.ltb_irrefl|done]. Qed.

Lemma jsnum_le_max_l a b : jsnum_le a (Math_max a b).
Proof.
  unfold jsnum_le, Math_max.
  destruct a as [x|], b as [y|]; simpl; try done;
    destruct (Z.ltb_spec x y); simpl; try done; apply Z.ltb_ge; lia.
Qed.

Lemma jsnum_le_max_r a b : jsnum_le b (Math_max a b).
Proof.
  unfold jsnum_le, Math_max.
  destruct a as [x|], b as [y|]; simpl; try done;
    destruct (Z.ltb_spec x y); simpl; try done; apply Z.ltb_ge; lia.
Qed.

Lemma jsnum_le_trans a b c : jsnum_le a b -> jsnum_le b c -> jsnum_le a c.
Proof.
  unfold jsnum_le.
  destruct a as [x|], b as [y|], c as [z|]; simpl; try done.
  rewrite !Z.ltb_ge. lia.
Qed.

Lemma updateParticipants_elem user w acc ps p :
  p ∈ updateParticipants user w acc ps ->
  p ∈ ps \/ p = mkParticipant user w acc.
Proof.
  unfold updateParticipants.
  destruct (findIndex _ ps) as [i|] eqn:Hi.
  - destruct (findIndex_Some _ _ _ Hi) as (q & Hq & Hfq & _).
    rewrite Hq. apply String.eqb_eq in Hfq.
    destruct (jsnum_ltb (pWpm q) w); [|by left].
    intros Hp. apply list_elem_of_lookup in Hp as [k Hk].
    apply list_lookup_insert_Some in Hk as [(-> & <- & _)|[_ Hk]].
    + right. by rewrite Hfq.
    + left. by eapply list_elem_of_lookup_2.
  - rewrite elem_of_app, list_elem_of_singleton. tauto.
Qed.

Lemma updateChallenge_OK user w acc c :
  challengeOK c ->
  challengeOK
    (mkChallenge (cId c) (cCreatorName c) (cDifficulty c) (cMode c)
       (cLimit c) (expiresAt c) (Math_max (bestWpm c) w)
       (Z.max (bestAccuracy c) acc)
       (updateParticipants user w acc (participants c))).
Proof.
  intros [Hnd Hbest]. split; simpl.
  - by apply updateParticipants_spec.
  - intros p Hp. apply updateParticipants_elem in Hp as [Hp| ->].
    + destruct (Hbest p Hp) as [Hw Ha]. split; [|lia].
      eapply jsnum_le_trans; [exact Hw|apply jsnum_le_max_l].
    + simpl. split; [apply jsnum_le_max_r|lia].
Qed.

Lemma updateChallengeResult_OK s challengeId w acc :
  Forall challengeOK (challenges s) ->
  Forall challengeOK (updateChallengeResult s challengeId w acc).
Proof.
  intros H. unfold updateChallengeResult. apply Forall_fmap.
  eapply Forall_impl; [exact H|]. intros c Hc. simpl.
  destruct (String.eqb (cId c) challengeId); [|done].
  by apply updateChallenge_OK.
Qed.

Lemma updateRoomResult_names s roomId w acc prog :
  (fun r => rpName <$> rParticipants r) <$> updateRoomResult s roomId w acc prog
  = (fun r => rpName <$> rParticipants r) <$> rooms s.
Proof.
  unfold updateRoomResult. rewrite <- list_fmap_compose.
  apply list_fmap_ext. intros _ r _. simpl.
  destruct (String.eqb (rId r) roomId); [|done]. simpl.
  rewrite <- list_fmap_compose. apply list_fmap_ext. intros _ p _. simpl.
  by destruct (String.eqb (rpName p) (userName s)).
Qed.

Lemma updateRoomResult_OK s roomId w acc prog :
  Forall roomOK (rooms s) ->
  Forall roomOK (updateRoomResult s roomId w acc prog).
Proof.
  unfold roomOK. intros H.
  apply (proj1 (Forall_fmap (fun r => rpName <$> rParticipants r) NoDup _)).
  rewrite updateRoomResult_names.
  by apply (proj2 (Forall_fmap (fun r => rpName <$> rParticipants r)
                     NoDup _)).
Qed.

Lemma joinParticipants_names user pid ps :
  rpName <$> joinParticipants user pid ps
  = match findIndex (fun p => String.eqb (rpName p) user) ps with
    | Some _ => rpName <$> ps
    | None => (rpName <$> ps) ++ [user]
    end.
Proof.
  unfold joinParticipants.
  destruct (findIndex _ ps) as [i|] eqn:Hi.
  - destruct (ps !! i) as [p|] eqn:Hp; [|done].
    rewrite list_fmap_insert. simpl.
    apply list_insert_id. by rewrite list_lookup_fmap, Hp.
  - by rewrite fmap_app.
Qed.

Lemma joinParticipants_NoDup user pid ps :
  NoDup (rpName <$> ps) -> NoDup (rpName <$> joinParticipants user pid ps).
Proof.
  intros Hnd. rewrite joinParticipants_names.
  destruct (findIndex _ ps) as [i|] eqn:Hi; [done|].
  apply NoDup_app. split; [done|]. split; [|apply NoDup_singleton].
  intros x Hx Hx'. apply list_elem_of_singleton in Hx' as ->.
  apply list_elem_of_fmap in Hx as (p & Hn & Hp).
  pose proof (findIndex_None _ _ Hi p Hp) as Hf. simpl in Hf.
  apply String.eqb_neq in Hf. congruence.
Qed.

(** What the handlers can do to the two registries. *)
Lemma endTest_registries s st :
  challenges st = challenges s -> rooms st = rooms s ->
  (challenges (endTest s st) = challenges s
   \/ exists i w acc,
        challenges (endTest s st) = updateChallengeResult s i w acc)
  /\ (rooms (endTest s st) = rooms s
      \/ exists i w acc prog,
           rooms (endTest s st) = updateRoomResult s i w acc prog).
Proof.
  intros Hc Hr. unfold endTest.
  repeat case_match; simpl; split; eauto 10.
Qed.

Lemma handleInputChange_registries s value now :
  (challenges (handleInputChange s value now) = challenges s
   \/ exists i w acc,
        challenges (handleInputChange s value now)
        = updateChallengeResult s i w acc)
  /\ (rooms (handleInputChange s value now) = rooms s
      \/ exists i w acc prog,
           rooms (handleInputChange s value now)
           = updateRoomResult s i w acc prog).
Proof.
  unfold handleInputChange, typeCharacter, backspace.
  repeat case_match; try (split; left; reflexivity);
    apply endTest_registries; reflexivity.
Qed.

Lemma tick_registries c now s :
  (challenges (tick c now s) = challenges s
   \/ exists i w acc,
        challenges (tick c now s) = updateChallengeResult c i w acc)
  /\ (rooms (tick c now s) = rooms s
      \/ exists i w acc prog,
           rooms (tick c now s) = updateRoomResult c i w acc prog).
Proof.
  unfold tick, endTest.
  repeat case_match; simpl; split; eauto 10.
Qed.

(** X11: whatever the component does (change events, firings of the timer
    of any earlier render, resets, changes of the settings, creating a
    challenge or a room, joining a room, typing or saving the user name,
    selecting a challenge or a room), in every challenge the participant
    names stay distinct and the best WPM and best accuracy stay at least
    those of every participant, and in every room the participant names stay
    distinct. *)
Theorem registries_stay_consistent (s0 s : State) :
  registryOK s0 -> appReachable s0 s -> registryOK s.
Proof.
  intros H0 Hr. unfold registryOK in *.
  induction Hr as [|s value now _ [Hc Hr]|c s now _ [Hcc Hcr] _ [Hc Hr]
                  |s newWords _ IH|s p _ IH
                  |s now idText newWords _ [Hc Hr]
                  |s idText pidText roomName newWords _ [Hc Hr]
                  |s roomId pidText newWords _ [Hc Hr]
                  |s newName _ IH|s newName _ IH|s o _ IH|s o _ IH];
    try done.
  - destruct (handleInputChange_registries s value now)
      as [[->|(i & w & acc & ->)] [->|(j & w' & acc' & prog & ->)]];
      auto using updateChallengeResult_OK, updateRoomResult_OK.
  - destruct (tick_registries c now s)
      as [[->|(i & w & acc & ->)] [->|(j & w' & acc' & prog & ->)]];
      auto using updateChallengeResult_OK, updateRoomResult_OK.
  - unfold createChallenge. case_match; simpl; [done|].
    split; [|done]. apply Forall_app. split; [done|].
    apply Forall_singleton. split; simpl; [apply NoDup_nil_2|].
    intros p Hp. by apply elem_of_nil in Hp.
  - unfold createRoom. case_match; simpl; [done|].
    split; [done|]. apply Forall_app. split; [done|].
    apply Forall_singleton. unfold roomOK. simpl. apply NoDup_singleton.
  - unfold joinRoom. case_match; simpl; [done|].
    split; [done|]. apply Forall_fmap.
    eapply Forall_impl; [exact Hr|]. intros r Hok. simpl.
    destruct (String.eqb (rId r) roomId); [|done].
    unfold roomOK. simpl. by apply joinParticipants_NoDup.
Qed.

Lemma registries_stay_consistent_witness :
  let s0 := setUserName "ann" (mount relaxedSettings) in
  let s1 := typeText (createChallenge s0 1000 "1000" ["ab"%string]) "a" 7 in
  let s2 := tick s1 60007 (typeText (setUserName "bob" s1) "b" 8) in
  registryOK s0
  /\ registryOK s2
  /\ testComplete s2 = true
  /\ userName s2 = "bob"%string
  /\ participants <$> challenges s2 = [[mkParticipant "ann" Infinity 100]].
Proof.
  intros s0 s1 s2.
  assert (H0 : registryOK s0) by (split; apply Forall_nil_2).
  split; [exact H0|]. split; [|by vm_compute].
  apply (registries_stay_consistent s0 s2 H0).
  assert (H1 : appReachable s0 s1).
  { subst s1. simpl. unfold press.
    apply app_input, app_createChallenge, app_start. }
  subst s2. apply app_tick; [exact H1|].
  simpl. unfold press. by apply app_input, app_setUserName.
Defined.

(** X12: a submitted result keeps the number, the order and the ids of the
    challenges; a challenge with another id is left as it is, so a result
    for an id that no challenge has changes nothing.  The same holds for a
    result submitted to the rooms, which also keeps every room's list of
    participant names. *)
Theorem submission_keeps_registry_shape (s : State) (i : string) (w : jsnum)
    (acc prog : Z) :
  cId <$> updateChallengeResult s i w acc = cId <$> challenges s
  /\ (forall k c, challenges s !! k = Some c -> cId c <> i ->
      updateChallengeResult s i w acc !! k = Some c)
  /\ ((forall c, c ∈ challenges s -> cId c <> i) ->
      updateChallengeResult s i w acc = challenges s)
  /\ rId <$> updateRoomResult s i w acc prog = rId <$> rooms s
  /\ (fun r => rpName <$> rParticipants r) <$> updateRoomResult s i w acc prog
     = (fun r => rpName <$> rParticipants r) <$> rooms s
  /\ ((forall r, r ∈ rooms s -> rId r <> i) ->
      updateRoomResult s i w acc prog = rooms s).
Proof.
  split_and!.
  - unfold updateChallengeResult. rewrite <- list_fmap_compose.
    apply list_fmap_ext. intros _ c _. simpl.
    by destruct (String.eqb (cId c) i).
  - intros k c Hk Hne. rewrite updateChallengeResult_lookup, Hk. simpl.
    apply String.eqb_neq in Hne. by rewrite Hne.
  - intros Hnone. unfold updateChallengeResult.
    rewrite <- (list_fmap_id (challenges s)) at 2.
    apply list_fmap_ext. intros k c Hk. simpl.
    assert (Hne : cId c <> i)
      by (apply Hnone; by eapply list_elem_of_lookup_2).
    apply String.eqb_neq in Hne. by rewrite Hne.
  - unfold updateRoomResult. rewrite <- list_fmap_compose.
    apply list_fmap_ext. intros _ r _. simpl.
    by destruct (String.eqb (rId r) i).
  - apply updateRoomResult_names.
  - intros Hnone. unfold updateRoomResult.
    rewrite <- (list_fmap_id (rooms s)) at 2.
    apply list_fmap_ext. intros k r Hk. simpl.
    assert (Hne : rId r <> i)
      by (apply Hnone; by eapply list_elem_of_lookup_2).
    apply String.eqb_neq in Hne. by rewrite Hne.
Qed.

Lemma submission_keeps_registry_shape_witness :
  let s := createChallenge (setUserName "ann" (mount relaxedSettings))
             1000 "1000" ["ab"%string] in
  (forall c, c ∈ challenges s -> cId c <> "2000"%string)
  /\ updateChallengeResult s "2000" (Fin 50) 90 = challenges s.
Proof.
  intros s.
  assert (Hnone : forall c, c ∈ challenges s -> cId c <> "2000"%string).
  { intros c Hc. apply list_elem_of_singleton in Hc as ->. discriminate. }
  split; [exact Hnone|].
  exact (proj1 (proj2 (proj2
           (submission_keeps_registry_shape s "2000" (Fin 50) 90 0))) Hnone).
Defined.

(** ** The user name *)

(** X13: without a user name, creating a challenge, creating a room and
    joining a room only raise the name prompt: no registry, no selection and
    no cell of the session changes.  With a user name, creating a challenge
    appends one without participants and with best figures 0, selects it and
    starts a fresh idle session, leaving the stats alone. *)
Theorem identity_is_required (s : State) :
  (userName s = EmptyString ->
   forall now idText pidText roomName roomId newWords,
     createChallenge s now idText newWords = setShowNamePrompt true s
     /\ createRoom s idText pidText roomName newWords
        = setShowNamePrompt true s
     /\ joinRoom s roomId pidText newWords = setShowNamePrompt true s)
  /\ (userName s <> EmptyString ->
      forall now idText newWords,
        let s' := createChallenge s now idText newWords in
        exists c,
          challenges s' = challenges s ++ [c]
          /\ cId c = idText /\ cCreatorName c = userName s
          /\ participants c = [] /\ bestWpm c = Fin 0
          /\ bestAccuracy c = 0%Z
          /\ expiresAt c = (now + 86400000)%Z
          /\ activeChallengeId s' = Some idText
          /\ words s' = newWords
          /\ (currentWordIndex s', currentCharIndex s') = (0, 0)
          /\ (testActive s', testComplete s') = (false, false)
          /\ stats s' = stats s /\ rooms s' = rooms s).
Proof.
  split.
  - intros Hn. intros. unfold createChallenge, createRoom, joinRoom.
    by rewrite Hn.
  - intros Hn now idText newWords. unfold createChallenge.
    apply String.eqb_neq in Hn. unfold truthy. rewrite Hn. simpl.
    eexists. split; [reflexivity|]. by repeat split.
Qed.

Lemma identity_is_required_witness :
  let s := mount relaxedSettings in
  userName s = EmptyString
  /\ createChallenge s 1000 "1000" ["ab"%string] = setShowNamePrompt true s.
Proof.
  intros s. split; [reflexivity|].
  exact (proj1 (proj1 (identity_is_required s) eq_refl 1000%Z "1000"%string
                  "p"%string "r"%string "1"%string ["ab"%string])).
Defined.

(** ** Joining a room *)

Lemma joinRoom_lookup s roomId pid newWords k :
  truthy (userName s) = true ->
  rooms (joinRoom s roomId pid newWords) !! k
  = (fun room =>
       if String.eqb (rId room) roomId then
         mkRoom (rId room) (rName room) (rCreatorName room)
           (rDifficulty room) (rMode room) (rLimit room)
           (joinParticipants (userName s) pid (rParticipants room))
       else room) <$> rooms s !! k.
Proof.
  intros Hn. unfold joinRoom. rewrite Hn. simpl. apply list_lookup_fmap.
Qed.

(** X14: a named user who joins a room with distinct participant names is
    afterwards in that room exactly once, and active: an existing record of
    the name keeps its id, progress, WPM and accuracy, a missing one is
    appended with zero figures.  Every other participant stays as it was,
    the room is selected and the session is reset. *)
Theorem join_room_membership (s : State) (roomId pid : string)
    (newWords : list string) (k : nat) (r : Room) :
  truthy (userName s) = true ->
  rooms s !! k = Some r ->
  rId r = roomId ->
  NoDup (rpName <$> rParticipants r) ->
  let s' := joinRoom s roomId pid newWords in
  exists r',
    rooms s' !! k = Some r'
    /\ rId r' = roomId
    /\ NoDup (rpName <$> rParticipants r')
    /\ (forall i p, rParticipants r !! i = Some p ->
        rpName p = userName s ->
        length (rParticipants r') = length (rParticipants r)
        /\ rParticipants r' !! i
           = Some (mkRoomParticipant (rpId p) (rpName p) (progress p)
                     (rpWpm p) (rpAccuracy p) true))
    /\ ((forall p, p ∈ rParticipants r -> rpName p <> userName s) ->
        rParticipants r'
        = rParticipants r
          ++ [mkRoomParticipant pid (userName s) 0 (Fin 0) 0 true])
    /\ (forall i p, rParticipants r !! i = Some p ->
        rpName p <> userName s -> rParticipants r' !! i = Some p)
    /\ (exists i p, rParticipants r' !! i = Some p
                    /\ rpName p = userName s /\ isActive p = true)
    /\ activeRoomId s' = Some roomId
    /\ (testActive s', testComplete s') = (false, false).
Proof.
  intros Hn Hk Hid Hnd s'. subst s'.
  rewrite (joinRoom_lookup s roomId pid newWords k Hn), Hk. simpl.
  apply String.eqb_eq in Hid. rewrite Hid.
  eexists. split; [reflexivity|]. simpl.
  set (user := userName s).
  set (ps := rParticipants r) in *.
  assert (Hfound : forall i p, ps !! i = Some p -> rpName p = user ->
            findIndex (fun p => String.eqb (rpName p) user) ps = Some i).
  { intros i p Hp Hname.
    destruct (findIndex_is_Some (fun p => String.eqb (rpName p) user) ps p)
      as [j Hj].
    - by eapply list_elem_of_lookup_2.
    - by apply String.eqb_eq.
    - rewrite Hj. f_equal.
      destruct (findIndex_Some _ _ _ Hj) as (q & Hq & Hfq & _).
      apply String.eqb_eq in Hfq.
      apply (NoDup_lookup _ j i user Hnd);
        rewrite list_lookup_fmap; [rewrite Hq|rewrite Hp]; simpl;
        congruence. }
  assert (Hsame : forall i p, ps !! i = Some p -> rpName p = user ->
            length (joinParticipants user pid ps) = length ps
            /\ joinParticipants user pid ps !! i
               = Some (mkRoomParticipant (rpId p) (rpName p) (progress p)
                         (rpWpm p) (rpAccuracy p) true)).
  { intros i p Hp Hname. unfold joinParticipants.
    rewrite (Hfound i p Hp Hname), Hp.
    rewrite length_insert, list_lookup_insert_eq
      by (by eapply lookup_lt_Some). done. }
  assert (Hnew : (forall p, p ∈ ps -> rpName p <> user) ->
            joinParticipants user pid ps
            = ps ++ [mkRoomParticipant pid user 0 (Fin 0) 0 true]).
  { intros Hnone. unfold joinParticipants.
    destruct (findIndex _ ps) as [j|] eqn:Hj; [|done].
    destruct (findIndex_Some _ _ _ Hj) as (q & Hq & Hfq & _).
    apply String.eqb_eq in Hfq.
    exfalso. apply (Hnone q); [by eapply list_elem_of_lookup_2|done]. }
  split; [by apply String.eqb_eq|].
  split; [by apply joinParticipants_NoDup|].
  split; [exact Hsame|]. split; [exact Hnew|]. split; [|split].
  - intros i p Hp Hne. unfold joinParticipants.
    destruct (findIndex _ ps) as [j|] eqn:Hj.
    + destruct (findIndex_Some _ _ _ Hj) as (q & Hq & Hfq & _).
      rewrite Hq. apply String.eqb_eq in Hfq.
      rewrite list_lookup_insert_ne; [done|]. intros ->. congruence.
    + by apply lookup_app_l_Some.
  - destruct (findIndex (fun p => String.eqb (rpName p) user) ps)
      as [j|] eqn:Hj.
    + destruct (findIndex_Some _ _ _ Hj) as (q & Hq & Hfq & _).
      apply String.eqb_eq in Hfq.
      destruct (Hsame j q Hq Hfq) as [_ Hat].
      eexists j, _. split; [exact Hat|]. by simpl.
    + rewrite Hnew.
      * exists (length ps), (mkRoomParticipant pid user 0 (Fin 0) 0 true).
        split; [|done]. rewrite lookup_app_r by lia.
        by rewrite Nat.sub_diag.
      * intros p Hp Hname.
        pose proof (findIndex_None _ _ Hj p Hp) as Hf. simpl in Hf.
        apply String.eqb_neq in Hf. congruence.
  - unfold joinRoom. rewrite Hn. by simpl.
Qed.

Lemma join_room_membership_witness :
  let s := createRoom (setUserName "ann" (mount relaxedSettings))
             "7" "8" EmptyString ["ab"%string] in
  let r := mkRoom "7" "ann's Room" "ann" medium time 30
             [mkRoomParticipant "8" "ann" 0 (Fin 0) 0 true] in
  truthy (userName s) = true
  /\ rooms s !! 0 = Some r
  /\ NoDup (rpName <$> rParticipants r)
  /\ exists r', rooms (joinRoom s "7" "9" ["cd"%string]) !! 0 = Some r'
                /\ length (rParticipants r') = 1.
Proof.
  intros s r.
  assert (Hnd : NoDup (rpName <$> rParticipants r)) by apply NoDup_singleton.
  split; [reflexivity|]. split; [reflexivity|]. split; [exact Hnd|].
  destruct (join_room_membership s "7" "9" ["cd"%string] 0 r
              eq_refl eq_refl eq_refl Hnd)
    as (r' & Hr' & _ & _ & Hsame & _).
  exists r'. split; [exact Hr'|].
  exact (proj1 (Hsame 0 _ eq_refl eq_refl)).
Defined.

(** ** The visible window *)

(** X15: the effect sets nothing while the ref [shouldUpdateVisibleRange]
    is cleared.  When it moves the visible window, the new window starts at
    0 or later, ends at the number of words or earlier, holds at most 15
    words and, for a cursor on a word, contains the current word.  It leaves
    the window alone exactly when the ref is cleared, or the current word is
    at least five words before the window's end and not within the first
    three words of the window, unless the cursor is at most at word 3. *)
Theorem visible_window_follows_cursor (shouldUpdateVisibleRange : bool)
    (currentWordIndex wordsLength : Z) (visibleRange : VisibleRange) :
  (shouldUpdateVisibleRange = false ->
   followCurrentWord shouldUpdateVisibleRange currentWordIndex wordsLength
     visibleRange = None)
  /\ (forall moved,
        followCurrentWord shouldUpdateVisibleRange currentWordIndex
          wordsLength visibleRange = Some moved ->
        shouldUpdateVisibleRange = true
        /\ (0 <= rangeStart moved)%Z
        /\ (rangeEnd moved <= wordsLength)%Z
        /\ (rangeEnd moved - rangeStart moved <= 15)%Z
        /\ ((0 <= currentWordIndex < wordsLength)%Z ->
            (rangeStart moved <= currentWordIndex < rangeEnd moved)%Z))
  /\ (followCurrentWord shouldUpdateVisibleRange currentWordIndex wordsLength
        visibleRange = None
      <-> shouldUpdateVisibleRange = false
          \/ ((currentWordIndex <= rangeEnd visibleRange - 5)%Z
              /\ ((rangeStart visibleRange + 3 <= currentWordIndex)%Z
                  \/ (currentWordIndex <= 3)%Z))).
Proof.
  unfold followCurrentWord. split_and!.
  - by intros ->.
  - intros moved Hm.
    destruct shouldUpdateVisibleRange; [|done]. split; [done|].
    assert (moved = mkRange (Z.max 0 (currentWordIndex - 3))
                      (Z.min wordsLength (currentWordIndex + 12)))
      by (simpl in Hm; repeat case_match; congruence).
    subst moved. simpl. lia.
  - destruct shouldUpdateVisibleRange; simpl; [|by split; [left|]].
    destruct (Z.ltb_spec (rangeEnd visibleRange - 5) currentWordIndex);
      [split; [done|intros [|]; [done|lia]]|].
    destruct (Z.ltb_spec currentWordIndex (rangeStart visibleRange + 3));
      destruct (Z.ltb_spec 3 currentWordIndex); simpl;
      split; try done; try (intros [|]; [done|lia]); try (right; lia).
Qed.

Lemma visible_window_follows_cursor_witness :
  followCurrentWord true 11 40 (mkRange 0 15) = Some (mkRange 8 23)
  /\ (8 <= 11 < 23)%Z
  /\ followCurrentWord false 11 40 (mkRange 0 15) = None.
Proof.
  destruct (visible_window_follows_cursor true 11 40 (mkRange 0 15))
    as (_ & Hmoved & _).
  split; [reflexivity|]. split.
  - apply (Hmoved (mkRange 8 23) eq_refl). lia.
  - exact (proj1 (visible_window_follows_cursor false 11 40 (mkRange 0 15))
             eq_refl).
Defined.

(** * Persisted cells *)

Section UseLocalStorageFacts.

Context {T : Type} (stringify : T -> string) (parse : string -> option T).

(** The codec reads back what it wrote, and writes no empty text. *)
Hypothesis parse_stringify : forall v, parse (stringify v) = Some v.
Hypothesis stringify_truthy : forall v, truthy (stringify v) = true.



End UseLocalStorageFacts.





(** * The theme toggle *)

Lemma classList_remove_elem a b l x :
  x ∈ classList_remove a b l <-> x ∈ l /\ x <> a /\ x <> b.
Proof.
  unfold classList_remove. rewrite !list_elem_of_In, filter_In.
  rewrite andb_true_iff, !negb_true_iff, !String.eqb_neq. tauto.
Qed.

Lemma classList_add_elem y l x :
  x ∈ classList_add y l <-> x ∈ l \/ x = y.
Proof.
  unfold classList_add. destruct (existsb (String.eqb y) l) eqn:He.
  - apply existsb_exists in He as (z & Hz & Hyz).
    apply String.eqb_eq in Hyz. subst z. apply list_elem_of_In in Hz.
    split; [by left|]. by intros [?| ->].
  - by rewrite elem_of_app, list_elem_of_singleton.
Qed.

Lemma filter_filter_same {A : Type} (f : A -> bool) (l : list A) :
  List.filter f (List.filter f l) = List.filter f l.
Proof.
  induction l as [|x l IH]; [done|]. simpl.
  destruct (f x) eqn:Hx; simpl; rewrite ?Hx; congruence.
Qed.

(** X18: toggling the theme twice gives the theme back.  After the effect
    has run, the root element carries the class of the theme and not the
    class of the other theme, and every class that is neither "light" nor
    "dark" is there exactly if it was there before; running the effect again
    changes nothing. *)
Theorem theme_class_is_exclusive (theme : Theme) (classList : list string) :
  toggleTheme (toggleTheme theme) = theme
  /\ toggleTheme theme <> theme
  /\ (themeName theme ∈ applyTheme theme classList)
  /\ (themeName (toggleTheme theme) ∉ applyTheme theme classList)
  /\ (forall x, x <> "light"%string -> x <> "dark"%string ->
      (x ∈ applyTheme theme classList <-> x ∈ classList))
  /\ applyTheme theme (applyTheme theme classList)
     = applyTheme theme classList.
Proof.
  split; [by destruct theme|]. split; [by destruct theme|].
  unfold applyTheme. split_and!.
  - apply classList_add_elem. by right.
  - rewrite classList_add_elem, classList_remove_elem.
    destruct theme; simpl; intros [(_ & ? & ?)|?]; congruence.
  - intros x Hl Hd. rewrite classList_add_elem, classList_remove_elem.
    destruct theme; simpl; intuition congruence.
  - set (kept := classList_remove "light" "dark" classList).
    assert (Hfresh : existsb (String.eqb (themeName theme)) kept = false).
    { apply not_true_iff_false. intros He.
      apply existsb_exists in He as (z & Hz & Hyz).
      apply String.eqb_eq in Hyz. subst z.
      apply list_elem_of_In, classList_remove_elem in Hz.
      destruct theme; simpl in Hz; intuition congruence. }
    assert (Hkept : classList_remove "light" "dark" kept = kept)
      by apply filter_filter_same.
    assert (Hgone : classList_remove "light" "dark" (kept ++ [themeName theme])
                    = kept).
    { unfold classList_remove. rewrite List.filter_app.
      fold (classList_remove "light" "dark" kept). rewrite Hkept.
      destruct theme; simpl; by rewrite app_nil_r. }
    unfold classList_add at 2. rewrite Hfresh. by rewrite Hgone.
Qed.

(** * The strict policy and the separators *)

Lemma handleInputChange_strictStep s value now :
  accuracyMode (settings s) = strict ->
  strictStep s (handleInputChange s value now).
Proof.
  intros Hs. unfold handleInputChange, typeCharacter, backspace.
  rewrite Hs.
  repeat case_match; autorewrite with session; simpl; tests; offsets;
    try match goal with
        | H : last_char ?v = char_at ?i ?w,
          L : String.length _ < String.length ?v |- _ =>
            let Hin := fresh "Hin" in
            assert (Hin : i < String.length w)
              by (destruct (last_char_is_Some v ltac:(lia)) as [? Hl];
                  rewrite H in Hl; by apply char_at_Some in Hl)
        end;
    try lia;
    first
      [ by apply strict_idle
      | by (eapply strict_prev_word; eauto; lia)
      | by (eapply strict_back; autorewrite with session; simpl; eauto;
            try lia; retest)
      | by (eapply strict_right; autorewrite with session; simpl; eauto;
            try lia)
      | by (eapply strict_next_word; autorewrite with session; simpl; eauto;
            try lia)
      | by (eapply strict_wrong; autorewrite with session; simpl; eauto;
            try lia; retest) ].
  Unshelve. all: exact EmptyString.
Qed.

Lemma count_insert (l : list bool) p (b b' : bool) :
  l !! p = Some b ->
  length (List.filter (fun x : bool => x) (<[p := b']> l))
  + (if b then 1 else 0)
  = length (List.filter (fun x : bool => x) l) + (if b' then 1 else 0).
Proof.
  intros Hp.
  pose proof (lookup_lt_Some _ _ _ Hp) as Hlt.
  rewrite insert_take_drop by done.
  rewrite <- (take_drop_middle l p b Hp) at 3.
  rewrite !List.filter_app, !length_app. simpl.
  destruct b, b'; simpl; lia.
Qed.

Lemma strictStep_strictOK s s' :
  words s' = words s ->
  strictStep s s' ->
  bitmapOK s -> charBounded s -> accuracyMode (settings s) = strict ->
  strictOK s -> strictOK s'.
Proof.
  intros Hws Hstep HOK Hbound Hs [Hall Hcount].
  unfold strictOK, committed, getCorrectCharCount in *. rewrite Hws.
  destruct Hstep
    as [Ew Ec Eb|w Hw Ew Ec Eb|w Hw Hin Ew Ec Eb|w Hw Hend Ew Ec Eb
       |prevWord Hprev Hpos Hzero Ew Ec Eb|w Hw Hpos Ew Ec Eb];
    rewrite Ew, Ec, Eb; clear Ew Ec Eb.
  - by split.
  - (* a mistyped key writes [false] over an unmarked entry *)
    assert (Esame :
              (if currentCharIndex s <? String.length w
               then array_set (correctChars s)
                      (offsetOf (words s) (currentWordIndex s)
                       + currentCharIndex s) false
               else correctChars s) = correctChars s).
    { destruct (Nat.ltb_spec (currentCharIndex s) (String.length w))
        as [Hin|]; [|done].
      pose proof (letter_in_text _ _ _ _ Hw Hin) as Hrange.
      destruct HOK as [Hsize Hclean].
      rewrite array_set_inside by lia.
      apply list_insert_id.
      destruct (lookup_lt_is_Some_2 (correctChars s)
                  (offsetOf (words s) (currentWordIndex s)
                   + currentCharIndex s) ltac:(lia)) as [[|] Hb]; [|done].
      exfalso. revert Hb.
      apply (bitmapOK_unmarked s w); [by split|done|lia]. }
    rewrite Esame. by split.
  - (* the expected key marks the entry under the cursor *)
    pose proof (letter_in_text _ _ _ _ Hw Hin) as Hrange.
    destruct HOK as [Hsize Hclean].
    rewrite array_set_inside by lia.
    assert (Hold : correctChars s
                     !! (offsetOf (words s) (currentWordIndex s)
                         + currentCharIndex s) = Some false).
    { destruct (lookup_lt_is_Some_2 (correctChars s)
                  (offsetOf (words s) (currentWordIndex s)
                   + currentCharIndex s) ltac:(lia)) as [[|] Hb]; [|done].
      exfalso. revert Hb.
      apply (bitmapOK_unmarked s w); [by split|done|lia]. }
    split.
    + intros p (j & c & wj & Hj & Hc & -> & Hbefore).
      destruct (decide (j = currentWordIndex s /\ c = currentCharIndex s))
        as [[-> ->]|Hne].
      * by rewrite list_lookup_insert_eq by lia.
      * assert (Hcom : committed s (offsetOf (words s) j + c)).
        { exists j, c, wj. repeat split; try done. lia. }
        pose proof (committed_before _ _ Hcom _ Hw).
        rewrite list_lookup_insert_ne by lia. by apply Hall.
    + pose proof (count_insert (correctChars s) _ false true Hold).
      simpl in *. lia.
  - (* the separator at the end of a word *)
    split.
    + intros p (j & c & wj & Hj & Hc & -> & Hbefore). apply Hall.
      exists j, c, wj. repeat split; try done.
      destruct (decide (j = currentWordIndex s)) as [->|]; [|left; lia].
      right. split; [done|]. simplify_eq. lia.
    + replace (currentWordIndex s + 1) with (S (currentWordIndex s)) by lia.
      rewrite (offsetOf_S _ _ _ Hw). lia.
  - (* back to the previous word *)
    split.
    + intros p (j & c & wj & Hj & Hc & -> & Hbefore). apply Hall.
      exists j, c, wj. repeat split; try done. left. lia.
    + replace (currentWordIndex s) with (S (currentWordIndex s - 1))
        in Hcount by lia.
      rewrite (offsetOf_S _ _ _ Hprev) in Hcount. lia.
  - (* a backspace clears the last committed entry of the word *)
    cbv zeta.
    specialize (Hbound _ Hw).
    assert (Hin : currentCharIndex s - 1 < String.length w) by lia.
    pose proof (letter_in_text _ _ _ _ Hw Hin) as Hrange.
    destruct HOK as [Hsize Hclean].
    replace (offsetOf (words s) (currentWordIndex s) + currentCharIndex s - 1)
      with (offsetOf (words s) (currentWordIndex s)
            + (currentCharIndex s - 1)) by lia.
    replace (offsetOf (words s) (currentWordIndex s)
             + (currentCharIndex s - 1) <? length (correctChars s))
      with true by (symmetry; apply Nat.ltb_lt; lia).
    assert (Hold : correctChars s
                     !! (offsetOf (words s) (currentWordIndex s)
                         + (currentCharIndex s - 1)) = Some true).
    { apply Hall. exists (currentWordIndex s), (currentCharIndex s - 1), w.
      repeat split; try done. right. split; [done|lia]. }
    split.
    + intros p (j & c & wj & Hj & Hc & -> & Hbefore).
      assert (Hlt : offsetOf (words s) j + c
                    < offsetOf (words s) (currentWordIndex s)
                      + (currentCharIndex s - 1)).
      { destruct Hbefore as [Hjw|[-> Hcc]]; [|lia].
        pose proof (word_before _ _ _ _ Hj Hjw). lia. }
      rewrite list_lookup_insert_ne by lia. apply Hall.
      exists j, c, wj. repeat split; try done.
      destruct Hbefore as [?|[-> ?]]; [by left|right; split; [done|lia]].
    + pose proof (count_insert (correctChars s) _ true false Hold).
      simpl in *. lia.
Qed.

Lemma resetTest_strictOK ws base : strictOK (resetTest ws base).
Proof.
  split; simpl.
  - intros p (j & c & w & _ & _ & _ & [?|[_ ?]]); simpl in *; lia.
  - unfold getCorrectCharCount. simpl. rewrite ?offsetOf_0.
    assert (Hnone : forall n,
              length (List.filter (fun b : bool => b) (replicate n false))
              = 0) by (induction n; [done|by simpl]).
    rewrite Hnone. reflexivity.
Qed.

Lemma strict_session_strictOK ws base s :
  accuracyMode (settings base) = strict ->
  reachableUnder (under strict) (resetTest ws base) s -> strictOK s.
Proof.
  intros Hs Hr.
  assert (Hcharb : charBounded (resetTest ws base))
    by (intros w _; simpl; lia).
  induction Hr as [|s value now Hr IH|c s now _ _ Hr IH|s p _ IH _ _].
  - apply resetTest_strictOK.
  - destruct (strict_session_charBounded (resetTest ws base) s Hs Hcharb Hr)
      as [Hpol Hbound].
    apply (strictStep_strictOK s).
    + apply handleInputChange_words.
    + by apply handleInputChange_strictStep.
    + eapply reachable_bitmapOK; [apply resetTest_bitmapOK|exact Hr].
    + exact Hbound.
    + exact Hpol.
    + exact IH.
  - unfold strictOK, committed, getCorrectCharCount in *.
    by autorewrite with session.
  - exact IH.
Qed.

(** X19: in a session whose policy is strict from its reset on (the other
    settings may change on the way), in every state the entries marked
    correct are exactly the characters before the cursor, so no typed
    character is ever painted red, and the correct characters are the
    characters before the cursor less one per completed word.  With the
    cursor on a word the completed count is the correct count plus the word
    index: every separator typed so far counts as an incorrect character,
    in the accuracy and in the stats that [endTest] stores.  (A phase under
    the relaxed policy leaves its errors behind:
    [relaxed_phase_leaves_errors].) *)
Theorem strict_counts_separators_as_errors (ws : list string)
    (base s : State) :
  accuracyMode (settings base) = strict ->
  reachableUnder (under strict) (resetTest ws base) s ->
  accuracyMode (settings s) = strict
  /\ getCorrectCharCount s + currentWordIndex s
     = offsetOf ws (currentWordIndex s) + currentCharIndex s
  /\ (forall j w i, ws !! j = Some w -> i < String.length w ->
      charColour s j i = if hasBeenTyped j i s then emerald else plain)
  /\ (forall w, ws !! currentWordIndex s = Some w ->
      getCompletedCharCount s = getCorrectCharCount s + currentWordIndex s
      /\ incorrectChars (newStats s)
         = (incorrectChars (stats s) + Z.of_nat (currentWordIndex s))%Z).
Proof.
  intros Hs Hr.
  pose proof (reachable_words _ _ Hr) as Hws. simpl in Hws.
  destruct (strict_session_strictOK ws base s Hs Hr) as [Hall Hcount].
  rewrite Hws in Hcount.
  split; [exact (reachable_allowed (allowed := under strict)
                  (resetTest ws base) s Hs Hr)|].
  split; [exact Hcount|]. split.
  - intros j w i Hj Hi. unfold charColour, marked.
    rewrite Hws, (charOffsets_word _ _ _ Hj).
    destruct (hasBeenTyped j i s) eqn:Ht; [|done].
    apply hasBeenTyped_spec in Ht.
    rewrite (Hall (offsetOf ws j + i)); [done|].
    exists j, i, w. rewrite Hws. by repeat split.
  - intros w Hw.
    assert (Hchars : getCompletedCharCount s
                     = getCorrectCharCount s + currentWordIndex s).
    { destruct (completed_count_closed_form s) as [-> _].
      - rewrite Hws. lia.
      - rewrite Hws. apply lookup_lt_Some in Hw. lia. }
    split; [exact Hchars|].
    unfold newStats. simpl. rewrite Hchars. lia.
Qed.

Lemma strict_counts_separators_as_errors_witness :
  let s0 := resetTest ["the"; "cat"]%string (mount strictSettings) in
  let slower := mkPatch None None (Some 60%Z) None None None in
  let s := typeText (updateSettings (typeText s0 "the " 7) slower) "cat" 8 in
  accuracyMode (settings (mount strictSettings)) = strict
  /\ timeLimit (settings s) = 60%Z
  /\ getCorrectCharCount s + currentWordIndex s
     = offsetOf ["the"; "cat"]%string (currentWordIndex s)
       + currentCharIndex s
  /\ getCompletedCharCount s = getCorrectCharCount s + 1.
Proof.
  intros s0 slower s.
  assert (Hr : reachableUnder (under strict) s0 s).
  { subst s s0. simpl. do 3 apply reach_input. apply reach_settings.
    - do 4 apply reach_input. apply reach_start.
    - by vm_compute.
    - reflexivity. }
  destruct (strict_counts_separators_as_errors ["the"; "cat"]%string
              (mount strictSettings) s eq_refl Hr)
    as (_ & Hcount & _ & Hword).
  split; [reflexivity|]. split; [reflexivity|]. split; [exact Hcount|].
  exact (proj1 (Hword "cat"%string eq_refl)).
Defined.

(** A phase under the relaxed policy leaves its errors behind: on the words
    "ab", "cd", after "ax" typed under the relaxed policy and a switch to
    the strict policy, two characters are before the cursor, one is marked
    correct, and the second character of the first word is painted red. *)
Lemma relaxed_phase_leaves_errors :
  let s0 := resetTest ["ab"; "cd"]%string (mount relaxedSettings) in
  let s := updateSettings (typeText s0 "ax" 7) (switchPolicy strict) in
  reachable s0 s
  /\ accuracyMode (settings s) = strict
  /\ getCorrectCharCount s + currentWordIndex s = 1
  /\ offsetOf ["ab"; "cd"]%string (currentWordIndex s) + currentCharIndex s
     = 2
  /\ charColour s 0 1 = red.
Proof.
  split; [|by vm_compute].
  simpl. apply reach_settings; [| |done].
  - do 2 apply reach_input. apply reach_start.
  - by vm_compute.
Qed.

(** * Typing the text exactly *)

Lemma typeText_append s a b now :
  typeText s (String.append a b) now = typeText (typeText s a now) b now.
Proof. revert s. induction a as [|c a IH]; intros s; simpl; auto. Qed.

Lemma append_snoc a c b :
  String.append (String.append a (String c EmptyString)) b
  = String.append a (String c b).
Proof.
  induction a as [|x a IH]; [done|].
  change (String x (String.append (String.append a (String c EmptyString)) b)
          = String x (String.append a (String c b))).
  by rewrite IH.
Qed.

Lemma char_at_append_mid a c b :
  char_at (String.length a) (String.append a (String c b)) = Some c.
Proof. unfold char_at. induction a as [|x a IH]; simpl; auto. Qed.

Lemma textOf_join ws :
  ws <> [] -> textOf ws = String.append (join_space ws) (String " "%char EmptyString).
Proof.
  induction ws as [|w rest IH]; [done|]. intros _.
  destruct rest as [|w' rest'].
  - reflexivity.
  - change (textOf (w :: w' :: rest'))
      with (String.append w (String " "%char (textOf (w' :: rest')))).
    rewrite IH by done.
    change (join_space (w :: w' :: rest'))
      with (String.append w (String " "%char (join_space (w' :: rest')))).
    generalize (join_space (w' :: rest')). intros j. clear IH.
    induction w as [|x w IHw]; [done|].
    change (String x (String.append w
                        (String " "%char
                           (String.append j (String " "%char EmptyString))))
            = String x (String.append
                          (String.append w (String " "%char j))
                          (String " "%char EmptyString))).
    by rewrite IHw.
Qed.

(** One expected key. *)
Lemma press_expected ws base s w c now :
  reachable (resetTest ws base) s ->
  testComplete s = false ->
  ws !! currentWordIndex s = Some w ->
  truthy w = true ->
  c <> " "%char ->
  char_at (currentCharIndex s) w = Some c ->
  let s1 := press s c now in
  testComplete s1 = false
  /\ currentWordIndex s1 = currentWordIndex s
  /\ currentCharIndex s1 = currentCharIndex s + 1
  /\ getCorrectCharCount s1 = getCorrectCharCount s + 1.
Proof.
  intros Hr Hc Hw Ht Hsp Hexp s1.
  pose proof (reachable_words _ _ Hr) as Hws. simpl in Hws.
  pose proof (reachable_bitmapOK _ _ (resetTest_bitmapOK ws base) Hr) as HOK.
  rewrite <- Hws in Hw.
  destruct (press_accepted s w c now Hc Hw Ht Hsp (or_intror Hexp))
    as (H1 & H2 & H3 & _).
  split; [done|]. split; [done|]. split; [done|].
  unfold getCorrectCharCount. subst s1. unfold press.
  rewrite (handleInputChange_typed_correctChars s w _ now Hc Hw Ht)
    by (rewrite length_append; simpl; lia).
  pose proof (char_at_Some _ _ _ Hexp) as Hin.
  replace (currentCharIndex s <? String.length w) with true
    by (symmetry; by apply Nat.ltb_lt).
  rewrite last_char_append, Hexp, bool_decide_eq_true_2 by done.
  pose proof (letter_in_text _ _ _ _ Hw Hin) as Hrange.
  destruct HOK as [Hsize Hclean].
  rewrite array_set_inside by lia.
  assert (Hold : correctChars s
                   !! (offsetOf (words s) (currentWordIndex s)
                       + currentCharIndex s) = Some false).
  { destruct (lookup_lt_is_Some_2 (correctChars s)
                (offsetOf (words s) (currentWordIndex s)
                 + currentCharIndex s) ltac:(lia)) as [[|] Hb]; [|done].
    exfalso. revert Hb.
    apply (bitmapOK_unmarked s w); [by split|done|lia]. }
  pose proof (count_insert (correctChars s) _ false true Hold).
  simpl in *. lia.
Qed.

(** The rest of a word, key by key. *)
Lemma type_rest_of_word ws base w now suffix :
  forall prefix s,
    w = String.append prefix suffix ->
    reachable (resetTest ws base) s ->
    testComplete s = false ->
    ws !! currentWordIndex s = Some w ->
    typable w ->
    currentCharIndex s = String.length prefix ->
    let s1 := typeText s suffix now in
    reachable (resetTest ws base) s1
    /\ testComplete s1 = false
    /\ currentWordIndex s1 = currentWordIndex s
    /\ currentCharIndex s1 = String.length w
    /\ getCorrectCharCount s1
       = getCorrectCharCount s + String.length suffix.
Proof.
  induction suffix as [|c rest IH]; intros prefix s Ew Hr Hc Hw Hty Hci.
  - assert (Hlen : String.length w = String.length prefix)
      by (subst w; rewrite length_append; simpl; lia).
    simpl. split_and!; try done; lia.
  - destruct Hty as [Ht Hns].
    assert (Hexp : char_at (currentCharIndex s) w = Some c)
      by (rewrite Hci, Ew; apply char_at_append_mid).
    assert (Hsp : c <> " "%char)
      by (intros ->; by apply (Hns (currentCharIndex s))).
    destruct (press_expected ws base s w c now Hr Hc Hw Ht Hsp Hexp)
      as (H1 & H2 & H3 & H4).
    simpl.
    destruct (IH (String.append prefix (String c EmptyString)) (press s c now))
      as (R1 & R2 & R3 & R4 & R5).
    + by rewrite append_snoc.
    + unfold press. by apply reach_input.
    + done.
    + by rewrite H2.
    + by split.
    + rewrite H3, length_append. simpl. lia.
    + split_and!; try done; try congruence. simpl. lia.
Qed.

(** The separator at the end of a word. *)
Lemma type_separator ws base s w now :
  reachable (resetTest ws base) s ->
  testComplete s = false ->
  ws !! currentWordIndex s = Some w ->
  truthy w = true ->
  currentCharIndex s = String.length w ->
  let s1 := press s " " now in
  reachable (resetTest ws base) s1
  /\ currentWordIndex s1 = currentWordIndex s + 1
  /\ currentCharIndex s1 = 0
  /\ getCorrectCharCount s1 = getCorrectCharCount s
  /\ (testComplete s1 = true
      <-> length ws <= currentWordIndex s + 1
          \/ (mode (settings base) = wordsMode
              /\ wordCount (settings base) <= currentWordIndex s + 1))
  /\ (testComplete s1 = true -> stats s1 = newStats s).
Proof.
  intros Hr Hc Hw Ht Hci s1.
  pose proof (reachable_words _ _ Hr) as Hws. simpl in Hws.
  pose proof (reachable_mode _ _ Hr) as Hmode. simpl in Hmode.
  pose proof (reachable_wordCount _ _ Hr) as Hcount. simpl in Hcount.
  pose proof (reachable_errorPosition (resetTest ws base) s eq_refl Hr)
    as Herr.
  rewrite <- Hws in Hw.
  assert (Hlen : String.length (currentInput s)
                 < String.length
                     (String.append (currentInput s)
                        (String " "%char EmptyString)))
    by (rewrite length_append; simpl; lia).
  destruct (separator_advance s w _ now Hc Hw Ht Hlen
              (last_char_append _ _)) as [Hadv _].
  destruct Hadv as (A1 & A2 & _); [by right|].
  split; [unfold s1, press; by apply reach_input|].
  split; [exact A1|]. split; [exact A2|]. split; [|split].
  - unfold getCorrectCharCount, s1, press.
    rewrite (handleInputChange_typed_correctChars s w _ now Hc Hw Ht Hlen).
    replace (currentCharIndex s <? String.length w) with false
      by (symmetry; apply Nat.ltb_ge; lia). done.
  - unfold s1, press. rewrite (handler_completes_iff s _ now Hc).
    rewrite Hws, Hmode, Hcount. split.
    + intros (w' & _ & _ & _ & _ & _ & Hend). exact Hend.
    + intros Hend. exists w. rewrite <- Hws.
      split_and!; try done; [apply last_char_append|by right|].
      by rewrite Hws.
  - intros Hdone. by apply handleInputChange_completes.
Qed.

(** The remaining words, each followed by its separator. *)
Lemma type_words ws base now rest :
  forall s,
    rest <> [] ->
    reachable (resetTest ws base) s ->
    testComplete s = false ->
    currentCharIndex s = 0 ->
    (forall k w, rest !! k = Some w -> ws !! (currentWordIndex s + k) = Some w) ->
    currentWordIndex s + length rest = length ws ->
    Forall typable rest ->
    (mode (settings base) = wordsMode ->
     length ws <= wordCount (settings base)) ->
    exists last w,
      reachable (resetTest ws base) last
      /\ testComplete last = false
      /\ typeText s (textOf rest) now = press last " " now
      /\ currentWordIndex last + 1 = length ws
      /\ ws !! currentWordIndex last = Some w
      /\ truthy w = true
      /\ currentCharIndex last = String.length w
      /\ getCorrectCharCount last
         = getCorrectCharCount s + sum_list (String.length <$> rest).
Proof.
  induction rest as [|w rest IH]; intros s Hne Hr Hc Hci Hat Hn Hty Hcount;
    [done|].
  apply Forall_cons in Hty as [Hw Hrest].
  assert (Hcur : ws !! currentWordIndex s = Some w)
    by (rewrite <- (Nat.add_0_r (currentWordIndex s)); by apply Hat).
  destruct (type_rest_of_word ws base w now w EmptyString s
              eq_refl Hr Hc Hcur Hw Hci) as (R1 & R2 & R3 & R4 & R5).
  change (textOf (w :: rest))
    with (String.append w (String " "%char (textOf rest))).
  rewrite typeText_append.
  set (s1 := typeText s w now) in *.
  change (typeText s1 (String " "%char (textOf rest)) now)
    with (typeText (press s1 " " now) (textOf rest) now).
  destruct rest as [|w' rest'].
  - exists s1, w. simpl in Hn. split_and!; try done.
    + lia.
    + by rewrite R3.
    + by destruct Hw.
    + simpl. rewrite R5. simpl. lia.
  - assert (Hcur1 : ws !! currentWordIndex s1 = Some w) by (by rewrite R3).
    destruct (type_separator ws base s1 w now R1 R2 Hcur1 (proj1 Hw) R4)
      as (S1 & S2 & S3 & S4 & S5 & _).
    set (s2 := press s1 " " now) in *.
    assert (Hopen : testComplete s2 = false).
    { apply not_true_is_false. rewrite S5. simpl in Hn.
      intros [?|[Hm ?]]; [lia|]. specialize (Hcount Hm). lia. }
    destruct (IH s2) as (last & wl & L1 & L2 & L3 & L4 & L5 & L6 & L7 & L8);
      try done.
    + intros k wk Hk. rewrite S2, R3.
      replace (currentWordIndex s + 1 + k)
        with (currentWordIndex s + S k) by lia.
      by apply Hat.
    + rewrite S2, R3. simpl in *. lia.
    + exists last, wl. split_and!; try done.
      rewrite L8, S4, R5. csimpl. lia.
Qed.

Lemma offsetOf_all ws :
  offsetOf ws (length ws) = sum_list (String.length <$> ws) + length ws.
Proof. unfold offsetOf. by rewrite firstn_all. Qed.

(** X20: typing the words exactly, each followed by a separator, completes
    the session with the cursor past the last word, under either policy and
    in either mode.  The stats take the length of the space-joined text as
    typed characters, the letters of the words as correct characters and
    one incorrect character for each separator between two words. *)
Theorem exact_typing_completes (ws : list string) (base : State) (now : Z) :
  ws <> [] ->
  Forall typable ws ->
  (mode (settings base) = wordsMode ->
   length ws <= wordCount (settings base)) ->
  let s' := typeText (resetTest ws base)
              (String.append (join_space ws) (String " "%char EmptyString))
              now in
  testComplete s' = true
  /\ currentWordIndex s' = length ws
  /\ totalChars (stats s')
     = (totalChars (stats base)
        + Z.of_nat (String.length (join_space ws)))%Z
  /\ statCorrectChars (stats s')
     = (statCorrectChars (stats base)
        + Z.of_nat (sum_list (String.length <$> ws)))%Z
  /\ incorrectChars (stats s')
     = (incorrectChars (stats base) + Z.of_nat (length ws - 1))%Z
  /\ completedTests (stats s') = (completedTests (stats base) + 1)%Z.
Proof.
  intros Hne Hty Hcount s'. subst s'.
  rewrite <- (textOf_join ws Hne).
  destruct (type_words ws base now ws (resetTest ws base))
    as (last & w & L1 & L2 & -> & L4 & L5 & L6 & L7 & L8); try done.
  { apply reach_start. }
  destruct (type_separator ws base last w now L1 L2 L5 L6 L7)
    as (_ & S2 & _ & _ & S5 & S6).
  assert (Hdone : testComplete (press last " " now) = true)
    by (apply S5; left; lia).
  destruct (registries_untouched_before_completion ws base last L1 L2)
    as (Hst & _).
  pose proof (reachable_words _ _ L1) as Hws. simpl in Hws.
  assert (Hchars : getCompletedCharCount last
                   = String.length (join_space ws)).
  { destruct (completed_count_closed_form last) as [-> _].
    - rewrite Hws, L7, length_join_space, <- L4.
      replace (currentWordIndex last + 1) with (S (currentWordIndex last))
        by lia.
      rewrite (offsetOf_S _ _ _ L5). lia.
    - rewrite Hws. lia. }
  assert (Hcorrect : getCorrectCharCount last
                     = sum_list (String.length <$> ws)).
  { rewrite L8. unfold getCorrectCharCount. simpl.
    assert (Hnone : forall n,
              length (List.filter (fun b : bool => b) (replicate n false))
              = 0) by (induction n; [done|by simpl]).
    by rewrite Hnone. }
  assert (Htotal : String.length (join_space ws)
                   = sum_list (String.length <$> ws) + (length ws - 1)).
  { rewrite length_join_space, offsetOf_all.
    destruct ws; [done|]. simpl. lia. }
  split; [exact Hdone|]. split; [lia|].
  rewrite (S6 Hdone). unfold newStats. simpl.
  rewrite Hst, Hchars, Hcorrect, Htotal. split_and!; lia.
Qed.

Lemma exact_typing_completes_witness :
  let ws := ["the"; "cat"]%string in
  let s' := typeText (resetTest ws (mount relaxedSettings)) "the cat " 7 in
  ws <> [] /\ Forall typable ws
  /\ testComplete s' = true
  /\ currentWordIndex s' = 2
  /\ statCorrectChars (stats s') = 6%Z
  /\ incorrectChars (stats s') = 1%Z.
Proof.
  intros ws s'.
  assert (Hne : ws <> []) by discriminate.
  assert (Hty : Forall typable ws).
  { repeat constructor;
      intros [|[|[|[|i]]]]; simpl; discriminate. }
  destruct (exact_typing_completes ws (mount relaxedSettings) 7 Hne Hty)
    as (H1 & H2 & _ & H4 & H5 & _); [discriminate|].
  split; [exact Hne|]. split; [exact Hty|].
  split; [exact H1|]. split; [exact H2|].
  split; [exact H4|exact H5].
Defined.
